(** * Parity reconciliation engine of compare_products_v2.0.py

    A shallow embedding of the comparison core of the Amazon / IcePIM parser:
    the text normalizer [clean], the title and bullet comparison, the video
    duration reconciliation, the gallery comparison
    [compare_images_by_name_strict] and the per-row loop of [main].

    Python strings are sequences of Unicode code points; sets and dicts are
    stdpp's [gset] and [gmap].  What the program obtains from the outside
    (the two browser sessions, the disk, the image hashing library, the
    interpreter's Unicode tables) enters as explicit parameters. *)

From Stdlib Require Import NArith ZArith Ascii String List Sorted Permutation Lia.
From stdpp Require Import base decidable option list sorting gmap.

#[local] Set Warnings "-clear-no-such-hyp".

Local Open Scope N_scope.

(** ** Python strings *)

(** A [str] is a sequence of code points. *)
Abbreviation pystr := (list N).

(** ASCII literals of the source, written as Rocq strings. *)
Definition lit (s : string) : pystr := List.map N_of_ascii (list_ascii_of_string s).

(** [Py_UNICODE_ISSPACE]: the characters removed by [str.strip()] and matched
    by [\s] in a [str] pattern. *)
Definition is_space (c : N) : bool :=
  ((9 <=? c) && (c <=? 13)) || ((28 <=? c) && (c <=? 32))
  || (c =? 133) || (c =? 160) || (c =? 5760)
  || ((8192 <=? c) && (c <=? 8202))
  || (c =? 8232) || (c =? 8233) || (c =? 8239) || (c =? 8287) || (c =? 12288).

Fixpoint lstrip (s : pystr) : pystr :=
  match s with
  | c :: s' => if is_space c then lstrip s' else s
  | [] => []
  end.

Definition rstrip (s : pystr) : pystr := rev (lstrip (rev s)).

(** [text.strip()] *)
Definition strip (s : pystr) : pystr := rstrip (lstrip s).

(** [s.endswith(suffix)] *)
Definition endswith (s suffix : pystr) : bool :=
  bool_decide (drop (length s - length suffix)%nat s = suffix).

(** [s.endswith((x, y, ...))] with a tuple of suffixes. *)
Definition endswith_any (s : pystr) (suffixes : list pystr) : bool :=
  existsb (endswith s) suffixes.

(** [sep.join(parts)] *)
Fixpoint join (sep : pystr) (parts : list pystr) : pystr :=
  match parts with
  | [] => []
  | [p] => p
  | p :: rest => p ++ sep ++ join sep rest
  end.

(** Decimal digits of a number, as [str(n)] and [f"{n}"] print an [int]. *)
Fixpoint digits_fuel (fuel : nat) (n : N) (acc : pystr) : pystr :=
  match fuel with
  | O => acc
  | S fuel' =>
      let acc' := (48 + n mod 10) :: acc in
      if n <? 10 then acc' else digits_fuel fuel' (n / 10) acc'
  end.

Definition str_of_N (n : N) : pystr := digits_fuel (S (N.to_nat (N.log2 n))) n [].

Definition str_of_nat (n : nat) : pystr := str_of_N (N.of_nat n).

(** Comparison of two [str] values, code point by code point, as [sorted]
    uses it. *)
Fixpoint str_leb (s t : pystr) : bool :=
  match s, t with
  | [], _ => true
  | _ :: _, [] => false
  | a :: s', b :: t' => if a <? b then true else if b <? a then false else str_leb s' t'
  end.

Definition str_le (s t : pystr) : Prop := str_leb s t = true.

Global Instance str_le_dec : RelDecision str_le.
Proof. intros s t. unfold str_le. apply _. Defined.

(** [sorted(x)] for a set or list of strings. *)
Definition sorted (l : list pystr) : list pystr := merge_sort str_le l.

(** ** The interpreter and the platform

    Library functions whose result depends on the interpreter's Unicode
    tables or on the operating system. *)
Record Runtime := {
  (** [str.lower()] *)
  str_lower : pystr -> pystr;
  (** [repr(s)] of a [str], as printed inside the [repr] of a list *)
  str_repr : pystr -> pystr;
  (** [os.path.join(a, b)] *)
  path_join : pystr -> pystr -> pystr;
  (** the characters that separate path components ([os.sep], [os.altsep]) *)
  path_seps : list N;
  (** [os.getcwd()] *)
  getcwd : pystr
}.

(** [os.path.join] gives a path when its last component is a name. *)
Definition join_nonempty (rt : Runtime) : Prop :=
  forall a b : pystr, b <> [] -> path_join rt a b <> [].

(** ** Normalizer (the local function [clean] of [main]) *)

(** The character class [[.,;™©\s]] *)
Definition clean_class (c : N) : bool :=
  (c =? 46) || (c =? 44) || (c =? 59) || (c =? 8482) || (c =? 169) || is_space c.

(** [re.sub('[class]+', repl, s)]: every maximal run of characters of the
    class is replaced by one copy of [repl].  [in_run] tells that the
    previous character already belonged to the run being replaced. *)
Fixpoint re_sub_runs (cls : N -> bool) (repl : pystr) (in_run : bool) (s : pystr) : pystr :=
  match s with
  | [] => []
  | c :: s' =>
      if cls c
      then (if in_run then [] else repl) ++ re_sub_runs cls repl true s'
      else c :: re_sub_runs cls repl false s'
  end.

Definition re_sub_class_plus (cls : N -> bool) (repl s : pystr) : pystr :=
  re_sub_runs cls repl false s.

Section Normalizer.
Variable rt : Runtime.

(** [re.sub(r'[.,;™©\s]+', '', text.strip().lower())] *)
Definition clean (text : pystr) : pystr :=
  re_sub_class_plus clean_class [] (str_lower rt (strip text)).

(** The normalizer as the specification words it: punctuation stripped,
    whitespace runs collapsed to one blank, lowercased. *)
Definition normalize_spec (text : pystr) : pystr :=
  re_sub_class_plus is_space [32]
    (filter (fun c => clean_class c = false \/ is_space c = true)
            (str_lower rt (strip text))).

(** ** Text parity (lines 1117-1121 of [main]) *)

Definition title_match (title_a title_b : pystr) : bool :=
  bool_decide (clean title_a = clean title_b).

Definition bullets_match (bullets_a bullets_b : list pystr) : bool :=
  (length bullets_a =? length bullets_b)%nat
  && forallb (fun ab => bool_decide (clean ab.1 = clean ab.2)) (zip bullets_a bullets_b).
End Normalizer.

(** ["MATCH" if b else "DIFFER"] *)
Definition verdict_str (b : bool) : pystr := if b then lit "MATCH" else lit "DIFFER".

(** An interpreter whose [str.lower] is the ASCII one and whose [repr] puts
    single quotes around the characters: what CPython computes on text whose
    cased letters are ASCII and that holds no quote, backslash or control
    character.  Paths are joined as [posixpath.join] does. *)
Definition ascii_lower_char (c : N) : N := if (65 <=? c) && (c <=? 90) then c + 32 else c.

Definition posix_join (a b : pystr) : pystr :=
  if bool_decide (head b = Some 47) then b
  else if bool_decide (a = []) || endswith a [47] then a ++ b
  else a ++ 47 :: b.

Definition ascii_runtime : Runtime := {|
  str_lower := List.map ascii_lower_char;
  str_repr := fun s => 39 :: s ++ [39];
  path_join := posix_join;
  path_seps := [47];
  getcwd := lit "/work"
|}.

(** ** Exceptions *)

Inductive exn := TypeError | AttributeError | OSError | WebDriverException | BadZipFile.

(** The result of a call that may raise. *)
Inductive outcome (A : Type) :=
| Ok (a : A)
| Raise (e : exn).
Arguments Ok {A} a.
Arguments Raise {A} e.

(** ** Video parity (lines 1129-1149 of [main]) *)

(** The values that stand for a duration that could not be read:
    [["?:??", "error"]]. *)
Definition sentinels : list pystr := [lit "?:??"; lit "error"].

Record VideoResult := {
  video_status : pystr;
  video_details : pystr
}.

Section VideoParity.
Variable rt : Runtime.

(** [any(d in ["?:??", "error"] for d in icepim_v_dur)] *)
Definition has_unknown_in_icepim (icepim_v_dur : list pystr) : bool :=
  existsb (fun d => bool_decide (d ∈ sentinels)) icepim_v_dur.

(** [[d for d in icepim_v_dur if d not in ["?:??", "error"]]] *)
Definition icepim_known_dur (icepim_v_dur : list pystr) : list pystr :=
  filter (fun d => d ∉ sentinels) icepim_v_dur.

(** [icepim_known_set - amazon_v_dur_set] *)
Definition missing_durations (amazon_durations icepim_v_dur : list pystr) : gset pystr :=
  list_to_set (icepim_known_dur icepim_v_dur) ∖ list_to_set amazon_durations.

(** How an f-string prints a list of strings. *)
Definition repr_list (l : list pystr) : pystr :=
  lit "[" ++ join (lit ", ") (List.map (str_repr rt) l) ++ lit "]".

(** The part of the detail text shared by the three branches:
    [A:{count} ({durations}) | I:{count} ({durations}) → ] *)
Definition video_details_head (amazon_v_count : nat) (amazon_v_dur_set : gset pystr)
    (icepim_v_count : nat) (icepim_v_dur : list pystr) : pystr :=
  lit "A:" ++ str_of_nat amazon_v_count ++ lit " ("
    ++ join (lit ", ") (sorted (elements amazon_v_dur_set))
    ++ lit ") | I:" ++ str_of_nat icepim_v_count ++ lit " ("
    ++ join (lit ", ") icepim_v_dur ++ lit ") " ++ [8594] ++ lit " ".

Definition compare_videos (amazon_v_count : nat) (amazon_durations : list pystr)
    (icepim_v_count : nat) (icepim_v_dur : list pystr) : VideoResult :=
  let amazon_v_dur_set : gset pystr := list_to_set amazon_durations in
  let icepim_known_set : gset pystr := list_to_set (icepim_known_dur icepim_v_dur) in
  let head := video_details_head amazon_v_count amazon_v_dur_set icepim_v_count icepim_v_dur in
  if has_unknown_in_icepim icepim_v_dur then
    {| video_status := lit "Warning";
       video_details := head ++ lit "WARNING: some IcePIM videos not loaded" |}
  else if bool_decide (icepim_known_set ⊆ amazon_v_dur_set) then
    {| video_status := lit "Match";
       video_details := head ++ lit "All IcePIM videos present on Amazon" |}
  else
    let missing := icepim_known_set ∖ amazon_v_dur_set in
    {| video_status := lit "Need upload";
       video_details := head ++ lit "Need upload: missing "
                          ++ repr_list (sorted (elements missing)) |}.
End VideoParity.

(** ** Image parity *)

Definition IMAGE_THRESHOLD : nat := 3.

Record ImgResult := {
  summary : pystr;
  images_match : bool;
  detailed_summary : pystr
}.

(** The outcome of one pair of files with a common base key. *)
Inductive pair_status := PairMatch | PairDiffer | PairError.

Global Instance pair_status_eq_dec : EqDecision pair_status.
Proof. solve_decision. Defined.

(** The Hamming distance in bits between two hashes given by their
    hexadecimal text, as the specification words the distance. *)
Definition hex_value (c : N) : N :=
  if (48 <=? c) && (c <=? 57) then c - 48
  else if (97 <=? c) && (c <=? 102) then c - 87
  else if (65 <=? c) && (c <=? 70) then c - 55
  else 0.

Definition popcount4 (n : N) : nat :=
  length (List.filter (N.testbit n) [0; 1; 2; 3]).

Definition bit_distance_spec (h1 h2 : pystr) : nat :=
  list_sum (List.map (fun cc => popcount4 (N.lxor (hex_value cc.1) (hex_value cc.2)))
                     (zip h1 h2)).

(** [s.rfind(c)] for the characters [c] that satisfy [P]; -1 when there is
    none. *)
Fixpoint rfind_from (P : N -> bool) (s : pystr) (i last : Z) : Z :=
  match s with
  | [] => last
  | c :: s' => rfind_from P s' (i + 1)%Z (if P c then i else last)
  end.

Definition rfind (P : N -> bool) (s : pystr) : Z := rfind_from P s 0%Z (-1)%Z.

(** [sum(c1 != c2 for c1, c2 in zip(h1, h2))] *)
Definition hash_distance (h1 h2 : pystr) : nat :=
  length (filter (fun cc => cc.1 ≠ cc.2) (zip h1 h2)).

(** Truth value of an optional string: [None] and [''] are false. *)
Definition truthy (o : option pystr) : bool :=
  match o with
  | Some (_ :: _) => true
  | _ => false
  end.

Section ImageParity.
Variable rt : Runtime.
(** [os.path.exists] *)
Variable path_exists : pystr -> bool.
(** [os.listdir] *)
Variable listdir : pystr -> outcome (list pystr).
(** [get_dhash]: the hexadecimal text of the dHash of the cropped image, or
    [None] when the image cannot be read or has no foreground. *)
Variable get_dhash : pystr -> option pystr.

(** [os.path.splitext(p)] *)
Definition splitext (p : pystr) : pystr * pystr :=
  let sepIndex := rfind (fun c => bool_decide (c ∈ path_seps rt)) p in
  let dotIndex := rfind (N.eqb 46) p in
  if (sepIndex <? dotIndex)%Z
     && existsb (fun c => negb (c =? 46))
          (take (Z.to_nat (dotIndex - (sepIndex + 1))) (drop (Z.to_nat (sepIndex + 1)) p))
  then (take (Z.to_nat dotIndex) p, drop (Z.to_nat dotIndex) p)
  else (p, []).

(** [f.lower().endswith(('.jpg', '.jpeg'))] *)
Definition is_amazon_image (f : pystr) : bool :=
  endswith_any (str_lower rt f) [lit ".jpg"; lit ".jpeg"].

(** [f.lower().endswith(('.jpg', '.jpeg', '.png'))] *)
Definition is_icepim_image (f : pystr) : bool :=
  endswith_any (str_lower rt f) [lit ".jpg"; lit ".jpeg"; lit ".png"].

(** [{os.path.splitext(f)[0]: f for f in files}] *)
Definition base_dict (files : list pystr) : gmap pystr pystr :=
  foldl (fun d f => <[(splitext f).1 := f]> d) ∅ files.

(** Lines 859-868: the two hashes and their distance. *)
Definition compare_pair (amazon_folder icepim_folder a_file i_file : pystr) : pair_status :=
  let h1 := get_dhash (path_join rt amazon_folder a_file) in
  let h2 := get_dhash (path_join rt icepim_folder i_file) in
  if truthy h1 && truthy h2 then
    let dist := hash_distance (default [] h1) (default [] h2) in
    if (dist <=? IMAGE_THRESHOLD)%nat then PairMatch else PairDiffer
  else PairError.

(** [a_file and i_file] for [a_file = a_dict.get(base)] and
    [i_file = i_dict.get(base)]. *)
Definition forms_pair (a_dict i_dict : gmap pystr pystr) (base : pystr) : bool :=
  truthy (a_dict !! base) && truthy (i_dict !! base).

(** One turn of the loop over [sorted(all_bases)]; the state is
    [(matched, total_pairs)]. *)
Definition compare_step (amazon_folder icepim_folder : pystr)
    (a_dict i_dict : gmap pystr pystr) (acc : nat * nat) (base : pystr) : nat * nat :=
  let a_file := a_dict !! base in
  let i_file := i_dict !! base in
  if forms_pair a_dict i_dict base then
    match compare_pair amazon_folder icepim_folder (default [] a_file) (default [] i_file) with
    | PairMatch => (S acc.1, S acc.2)
    | _ => (acc.1, S acc.2)
    end
  else acc.

(** The loop of lines 853-873, from [matched = 0] and [total_pairs = 0]. *)
Definition compare_loop (amazon_folder icepim_folder : pystr)
    (a_dict i_dict : gmap pystr pystr) (bases : list pystr) : nat * nat :=
  foldl (compare_step amazon_folder icepim_folder a_dict i_dict) (0, 0)%nat bases.

(** The verdict of the pair formed from a base key; [None] for a key that
    one of the folders lacks. *)
Definition pair_verdict (amazon_folder icepim_folder : pystr)
    (a_dict i_dict : gmap pystr pystr) (base : pystr) : option pair_status :=
  match a_dict !! base, i_dict !! base with
  | Some a_file, Some i_file =>
      Some (compare_pair amazon_folder icepim_folder a_file i_file)
  | _, _ => None
  end.

(** A pair that the tally of mismatches counts: DIFFER or ERROR. *)
Definition pair_mismatch (v : option pair_status) : bool :=
  match v with
  | Some PairDiffer | Some PairError => true
  | Some PairMatch | None => false
  end.

(** [amazon_folder] is a path: [main] calls the function when
    [CHECK_IMAGES] is set, with the folder [download_amazon_images]
    returned. *)
Definition compare_images_by_name_strict (amazon_folder : pystr)
    (icepim_folder : option pystr) : outcome ImgResult :=
  if negb (truthy icepim_folder) || negb (path_exists (default [] icepim_folder)) then
    Ok {| summary := lit "0/0"; images_match := false;
          detailed_summary := lit "PIM folder missing" |}
  else
    let icepim_folder := default [] icepim_folder in
    match listdir amazon_folder with
    | Raise e => Raise e
    | Ok a_listing =>
      match listdir icepim_folder with
      | Raise e => Raise e
      | Ok i_listing =>
        let a_files := List.filter is_amazon_image a_listing in
        let i_files := List.filter is_icepim_image i_listing in
        let a_dict := base_dict a_files in
        let i_dict := base_dict i_files in
        let all_bases : gset pystr := dom a_dict ∪ dom i_dict in
        let '(matched, total_pairs) :=
          compare_loop amazon_folder icepim_folder a_dict i_dict
                       (sorted (elements all_bases)) in
        let amazon_count := length a_files in
        let pim_count := length i_files in
        let counts := str_of_nat amazon_count ++ lit " Amazon / "
                        ++ str_of_nat pim_count ++ lit " PIM, " in
        let summary := str_of_nat amazon_count ++ lit "/" ++ str_of_nat pim_count in
        if (amazon_count =? pim_count)%nat && (matched =? total_pairs)%nat then
          Ok {| summary := summary; images_match := true;
                detailed_summary := counts ++ lit "all MATCH" |}
        else if negb (amazon_count =? pim_count)%nat then
          let mismatch_count := (total_pairs - matched)%nat in
          Ok {| summary := summary; images_match := false;
                detailed_summary :=
                  counts ++ lit "Different q-ty, " ++ str_of_nat mismatch_count
                    ++ lit " Mismatch" |}
        else
          let mismatch_count := (total_pairs - matched)%nat in
          Ok {| summary := summary; images_match := false;
                detailed_summary :=
                  counts ++ str_of_nat matched ++ lit " Match, "
                    ++ str_of_nat mismatch_count ++ lit " Mismatch" |}
      end
    end.
End ImageParity.


(** ** Snapshots *)

(** The dict returned by [parse_amazon]: every return path has the six
    keys. *)
Record AmazonData := {
  a_title : pystr;
  a_bullets : list pystr;
  a_has_manual : bool;
  a_store_correct : bool;
  a_videos_count : nat;
  a_videos_durations : list pystr
}.

(** The dict returned by [parse_icepim]: ["videos_count"] and
    ["videos_durations"] are present on the complete return only. *)
Record IcepimData := {
  i_title : pystr;
  i_bullets : list pystr;
  i_status : pystr;
  i_videos : option (nat * list pystr)
}.

(** A row of the report, one cell per column of [fieldnames]. *)
Record ReportRow := {
  r_asin : pystr;
  r_title : pystr;
  r_bullets : pystr;
  r_images : pystr;
  r_icepim_status : pystr;
  r_user_manual : pystr;
  r_brand_store : pystr;
  r_video : pystr;
  r_video_details : pystr;
  r_images_details : pystr
}.

(** ** What the outside world answers while one row is processed *)

(** One read of the product page: the text of [#productTitle] when the tag is
    there, and the non-empty bullet texts. *)
Record PageView := {
  title_tag : option pystr;
  page_bullets : list pystr
}.

Record AmazonPage := {
  first_read : PageView;
  second_read : PageView;
  manual_link : bool;
  brand_store_found : bool
}.

Inductive IcepimPage :=
| NoLangBlock (status : pystr)
| LangBlock (status : pystr) (title_input : option pystr) (bullets : list pystr).

(** What opening the modal of one IcePIM video gives. *)
Inductive video_probe :=
| ProbeLoaded (formatted : pystr)
| ProbeNotLoaded
| ProbeError.

Record ItemWorld := {
  (** [amazon_driver.get(amazon_url)] *)
  w_amazon_get : outcome unit;
  (** what the [try] block of [parse_amazon] reads, or the exception it
      meets *)
  w_amazon_page : outcome AmazonPage;
  (** [parse_amazon_videos(driver)] *)
  w_amazon_videos : outcome (nat * list pystr);
  (** the calls of [download_amazon_images] that no [try] guards *)
  w_amazon_download : outcome unit;
  (** what the [try] block of [parse_icepim] reads *)
  w_icepim_page : outcome IcepimPage;
  (** the play icons of the video list, [None] without a video list block *)
  w_icepim_videos : outcome (option (list video_probe));
  (** whether the download modal opened and the download was triggered *)
  w_modal_ok : bool;
  (** [os.listdir(download_dir)] at the poll that ends the wait, oldest file
      first *)
  w_download_listing : list pystr;
  (** [zipfile.ZipFile(zip_path).extractall(extract_dir)] *)
  w_extract : outcome unit;
  (** [os.listdir] and [get_dhash] during the gallery comparison *)
  w_listdir : pystr -> outcome (list pystr);
  w_dhash : pystr -> option pystr
}.

Record Config := {
  EXPORT_ENABLED : bool;
  CHECK_IMAGES : bool;
  CHECK_VIDEOS : bool
}.

(** ** State and exceptions *)

Record State := {
  (** the temporary folders and archives present on disk *)
  disk : gset pystr;
  (** the archives copied to "galleries for upload" *)
  galleries_for_upload : list pystr;
  (** the data rows of [RESULTS_CSV], oldest first *)
  report : list ReportRow;
  (** the rows of the [PrettyTable] *)
  table : list ReportRow;
  (** the rows for which an export to Amazon was requested *)
  exports : list nat;
  (** [progress_bar["value"]] *)
  progress : nat
}.

Definition M (A : Type) : Type := State -> State * outcome A.

Global Instance M_ret : MRet M := fun A a s => (s, Ok a).

Global Instance M_bind : MBind M := fun A B f m s =>
  match m s with
  | (s', Ok a) => f a s'
  | (s', Raise e) => (s', Raise e)
  end.

Definition lift {A} (o : outcome A) : M A := fun s => (s, o).

Definition modify (f : State -> State) : M unit := fun s => (f s, Ok tt).

Definition gets {A} (f : State -> A) : M A := fun s => (s, Ok (f s)).

Definition set_disk (f : gset pystr -> gset pystr) (s : State) : State :=
  {| disk := f (disk s); galleries_for_upload := galleries_for_upload s;
     report := report s; table := table s; exports := exports s;
     progress := progress s |}.

(** [os.makedirs(p, exist_ok=True)], and a file the browser saves. *)
Definition create (p : pystr) : M unit := modify (set_disk (fun d => {[p]} ∪ d)).

(** [shutil.rmtree(p, ignore_errors=True)] and [os.remove(p)]. *)
Definition remove (p : pystr) : M unit := modify (set_disk (fun d => d ∖ {[p]})).

(** [if p and os.path.exists(p): remove] *)
Definition remove_if_exists (p : option pystr) : M unit :=
  match p with
  | Some (c :: p') => fun s => if bool_decide ((c :: p') ∈ disk s) then remove (c :: p') s else (s, Ok tt)
  | _ => mret tt
  end.

(** The paths among optional values. *)
Definition paths_of (l : list (option pystr)) : gset pystr := list_to_set (omap id l).

(** ** Rows of the work list *)

(** [row.get(key, "")]: a column the file does not have gives [""], a field
    missing in a short line is [None]. *)
Definition row_get (row : gmap pystr (option pystr)) (key : pystr) : option pystr :=
  match row !! key with
  | Some v => v
  | None => Some []
  end.

Definition is_asin_char (c : N) : bool :=
  ((65 <=? c) && (c <=? 90)) || ((48 <=? c) && (c <=? 57)).

(** [re.search(r"/dp/([A-Z0-9]{10})", s)], group 1 of the leftmost match. *)
Fixpoint search_asin (s : pystr) : option pystr :=
  match s with
  | [] => None
  | _ :: s' =>
      let body := take 10 (drop 4 s) in
      if bool_decide (take 4 s = lit "/dp/") && (length body =? 10)%nat
         && forallb is_asin_char body
      then Some body
      else search_asin s'
  end.

(** [re.search] on a value that may be [None]. *)
Definition re_search_asin (v : option pystr) : outcome (option pystr) :=
  match v with
  | None => Raise TypeError
  | Some s => Ok (search_asin s)
  end.

(** [v.strip()] on a value that may be [None]. *)
Definition strip_value (v : option pystr) : outcome pystr :=
  match v with
  | None => Raise AttributeError
  | Some s => Ok (strip s)
  end.

(** [list(dict.fromkeys(l))]: the first occurrence of each element. *)
Fixpoint fromkeys (seen l : list pystr) : list pystr :=
  match l with
  | [] => []
  | x :: l' => if bool_decide (x ∈ seen) then fromkeys seen l' else x :: fromkeys (x :: seen) l'
  end.

Definition NOT_FOUND : pystr := lit "NOT FOUND".

Definition add_row (r : ReportRow) (s : State) : State :=
  {| disk := disk s; galleries_for_upload := galleries_for_upload s;
     report := report s ++ [r]; table := table s ++ [r]; exports := exports s;
     progress := progress s |}.

Definition add_gallery (dest : pystr) (s : State) : State :=
  {| disk := disk s; galleries_for_upload := galleries_for_upload s ++ [dest];
     report := report s; table := table s; exports := exports s;
     progress := progress s |}.

Definition add_export (idx : nat) (s : State) : State :=
  {| disk := disk s; galleries_for_upload := galleries_for_upload s;
     report := report s; table := table s; exports := exports s ++ [idx];
     progress := progress s |}.

Definition set_progress (idx : nat) (s : State) : State :=
  {| disk := disk s; galleries_for_upload := galleries_for_upload s;
     report := report s; table := table s; exports := exports s;
     progress := idx |}.

Definition initial_state : State :=
  {| disk := ∅; galleries_for_upload := []; report := []; table := [];
     exports := []; progress := 0 |}.

(** ** The two snapshot providers and the loop of [main] *)

Section Program.
Variable rt : Runtime.
Variable cfg : Config.
(** The world's answers while row [idx] is processed. *)
Variable world : nat -> ItemWorld.

Definition amazon_degraded : AmazonData :=
  {| a_title := NOT_FOUND; a_bullets := [NOT_FOUND]; a_has_manual := false;
     a_store_correct := false; a_videos_count := 0; a_videos_durations := [] |}.

(** [title_tag and len(bullets) > 2] *)
Definition page_loaded (v : PageView) : bool :=
  match title_tag v with
  | Some _ => (2 <? length (page_bullets v))%nat
  | None => false
  end.

Definition parse_amazon (w : ItemWorld) : AmazonData :=
  match w_amazon_page w with
  | Raise _ => amazon_degraded
  | Ok page =>
      let complete (v : PageView) :=
        match (if CHECK_VIDEOS cfg then w_amazon_videos w else Ok (0%nat, [])) with
        | Raise _ => amazon_degraded
        | Ok (videos_count, videos_durations) =>
            {| a_title := default [] (title_tag v); a_bullets := page_bullets v;
               a_has_manual := manual_link page;
               a_store_correct := brand_store_found page;
               a_videos_count := videos_count;
               a_videos_durations := videos_durations |}
        end in
      if page_loaded (first_read page) then complete (first_read page)
      else if page_loaded (second_read page) then complete (second_read page)
      else
        let v := second_read page in
        {| a_title := default NOT_FOUND (title_tag v);
           a_bullets := match page_bullets v with [] => [NOT_FOUND] | b => b end;
           a_has_manual := false; a_store_correct := false;
           a_videos_count := 0; a_videos_durations := [] |}
  end.

Definition probe_duration (p : video_probe) : pystr :=
  match p with
  | ProbeLoaded formatted => formatted
  | ProbeNotLoaded => lit "?:??"
  | ProbeError => lit "error"
  end.

Definition get_icepim_video_durations_by_modal (w : ItemWorld) : outcome (nat * list pystr) :=
  match w_icepim_videos w with
  | Raise e => Raise e
  | Ok None => Ok (0%nat, [])
  | Ok (Some play_icons) => Ok (length play_icons, List.map probe_duration play_icons)
  end.

Definition icepim_error : IcepimData :=
  {| i_title := NOT_FOUND; i_bullets := [NOT_FOUND]; i_status := lit "ERROR";
     i_videos := None |}.

Definition parse_icepim (w : ItemWorld) : IcepimData :=
  match w_icepim_page w with
  | Raise _ => icepim_error
  | Ok (NoLangBlock status) =>
      {| i_title := NOT_FOUND; i_bullets := [NOT_FOUND]; i_status := status;
         i_videos := None |}
  | Ok (LangBlock status title_input bullets) =>
      let title := match title_input with Some v => strip v | None => NOT_FOUND end in
      let clean_bullets :=
        match fromkeys [] bullets with [] => [NOT_FOUND] | l => l end in
      match (if CHECK_VIDEOS cfg then get_icepim_video_durations_by_modal w
             else Ok (0%nat, [])) with
      | Raise _ => icepim_error
      | Ok (icepim_videos_count, icepim_videos_durations) =>
          {| i_title := title; i_bullets := clean_bullets; i_status := status;
             i_videos := Some (icepim_videos_count, icepim_videos_durations) |}
      end
  end.

Definition DOWNLOAD_DIR : pystr := path_join rt (getcwd rt) (lit "downloads").

Definition download_amazon_images (w : ItemWorld) (asin : pystr) : M pystr :=
  let folder := path_join rt (getcwd rt) (lit "tmp_amazon_" ++ asin) in
  create folder;;
  lift (w_amazon_download w);;
  mret folder.

Definition download_icepim_images (w : ItemWorld) (asin : pystr)
    : M (option pystr * option pystr) :=
  if negb (w_modal_ok w) then mret (None, None)
  else
    let files :=
      List.filter (fun f => endswith f (lit ".zip") && negb (endswith f (lit ".crdownload")))
                  (w_download_listing w) in
    match last files with
    | None => mret (None, None)
    | Some newest =>
        let zip_path := path_join rt DOWNLOAD_DIR newest in
        let extract_dir := path_join rt (getcwd rt) (lit "tmp_icepim_" ++ asin) in
        create zip_path;;
        create extract_dir;;
        lift (w_extract w);;
        mret (Some extract_dir, Some zip_path)
    end.

Definition process_amazon (row : gmap pystr (option pystr)) (idx : nat)
    : M (pystr * AmazonData * option pystr) :=
  let w := world idx in
  asin_match ← lift (re_search_asin (row_get row (lit "amazon_url")));
  let asin := default (lit "unknown_" ++ str_of_nat idx) asin_match in
  amazon_url ← lift (strip_value (row_get row (lit "amazon_url")));
  lift (w_amazon_get w);;
  let amazon_data := parse_amazon w in
  amazon_folder ← (if CHECK_IMAGES cfg
                   then folder ← download_amazon_images w asin; mret (Some folder)
                   else mret None);
  mret (asin, amazon_data, amazon_folder).

Definition process_icepim (row : gmap pystr (option pystr)) (idx : nat)
    : M (IcepimData * option pystr * option pystr) :=
  let w := world idx in
  icepim_url ← lift (strip_value (row_get row (lit "icepim_url")));
  let icepim_data := parse_icepim w in
  if CHECK_IMAGES cfg && bool_decide (i_status icepim_data = lit "Approved") then
    asin_match ← lift (re_search_asin (row_get row (lit "amazon_url")));
    let asin := default (lit "unknown") asin_match in
    '(icepim_folder, zip_path) ← download_icepim_images w asin;
    mret (icepim_data, icepim_folder, zip_path)
  else mret (icepim_data, None, None).

(** The two tasks of the [ThreadPoolExecutor]: both run to their end, then
    [future_amazon.result()] and [future_icepim.result()] re-raise, in this
    order, what a task raised. *)
Definition fetch_both (row : gmap pystr (option pystr)) (idx : nat)
    : M ((pystr * AmazonData * option pystr) * (IcepimData * option pystr * option pystr)) :=
  fun s =>
    let '(s1, amazon_result) := process_amazon row idx s in
    let '(s2, icepim_result) := process_icepim row idx s1 in
    match amazon_result, icepim_result with
    | Ok a, Ok i => (s2, Ok (a, i))
    | Raise e, _ => (s2, Raise e)
    | Ok _, Raise e => (s2, Raise e)
    end.

(** Lines 1101-1112.  [amazon_folder] is the folder [process_amazon]
    returned when [CHECK_IMAGES] is set. *)
Definition check_images (w : ItemWorld) (asin : pystr)
    (amazon_folder icepim_folder zip_path : option pystr) : M (bool * pystr) :=
  if CHECK_IMAGES cfg then
    exists_now ← gets (fun s p => bool_decide (p ∈ disk s));
    img_comp ← lift (match amazon_folder with
                     | Some folder =>
                         compare_images_by_name_strict rt exists_now (w_listdir w)
                           (w_dhash w) folder icepim_folder
                     | None => Raise TypeError
                     end);
    (if truthy zip_path && negb (images_match img_comp)
     then modify (add_gallery (path_join rt (lit "galleries for upload") (asin ++ lit ".zip")))
     else mret tt);;
    mret (images_match img_comp, detailed_summary img_comp)
  else mret (true, lit "Image check disabled").

(** ["YES" if b else "NO"] *)
Definition yes_no (b : bool) : pystr := if b then lit "YES" else lit "NO".

(** Lines 1117-1121, 1129-1149 and the row of lines 1169-1180. *)
Definition make_row (asin : pystr) (amazon_data : AmazonData) (icepim_data : IcepimData)
    (images : bool * pystr) : ReportRow :=
  let title_ok := title_match rt (a_title amazon_data) (i_title icepim_data) in
  let bullets_ok := bullets_match rt (a_bullets amazon_data) (i_bullets icepim_data) in
  let amazon_v_count := a_videos_count amazon_data in
  let amazon_v_dur := a_videos_durations amazon_data in
  let icepim_v_count := default 0%nat (fst <$> i_videos icepim_data) in
  let icepim_v_dur := default [] (snd <$> i_videos icepim_data) in
  let video := compare_videos rt amazon_v_count amazon_v_dur icepim_v_count icepim_v_dur in
  {| r_asin := asin;
     r_title := verdict_str title_ok;
     r_bullets := verdict_str bullets_ok;
     r_images := verdict_str images.1;
     r_icepim_status := i_status icepim_data;
     r_user_manual := yes_no (a_has_manual amazon_data);
     r_brand_store := yes_no (a_store_correct amazon_data);
     r_video := video_status video;
     r_video_details := video_details video;
     r_images_details := images.2 |}.

(** The body of the [for] loop of [main], lines 1087-1189. *)
Definition process_row (idx : nat) (row : gmap pystr (option pystr)) : M unit :=
  let w := world idx in
  asin_match ← lift (re_search_asin (row_get row (lit "amazon_url")));
  let asin := default (lit "unknown_" ++ str_of_nat idx) asin_match in
  fetched ← fetch_both row idx;
  let '((_, amazon_data, amazon_folder), (icepim_data, icepim_folder, zip_path)) := fetched in
  images ← check_images w asin amazon_folder icepim_folder zip_path;
  let title_ok := title_match rt (a_title amazon_data) (i_title icepim_data) in
  let bullets_ok := bullets_match rt (a_bullets amazon_data) (i_bullets icepim_data) in
  (if EXPORT_ENABLED cfg && (negb title_ok || negb bullets_ok)
   then modify (add_export idx) else mret tt);;
  modify (add_row (make_row asin amazon_data icepim_data images));;
  remove_if_exists amazon_folder;;
  remove_if_exists icepim_folder;;
  remove_if_exists zip_path;;
  modify (set_progress idx).

(** [for idx, row in enumerate(rows, start=1)]: an exception ends the
    loop. *)
Fixpoint main_loop (idx : nat) (rows : list (gmap pystr (option pystr))) : M unit :=
  match rows with
  | [] => mret tt
  | row :: rest => process_row idx row;; main_loop (S idx) rest
  end.

(** The rows of the report after the run. *)
Definition run (rows : list (gmap pystr (option pystr))) : State * outcome unit :=
  main_loop 1 rows initial_state.
End Program.

(** ** Durations of the marketplace videos (lines 342-358 of
    [parse_amazon_videos]) *)

(** [int(s)] for a string of ASCII digits. *)
Definition int_of_str (s : pystr) : N :=
  fold_left (fun acc c => 10 * acc + (c - 48)) s 0.

(** [f"{n:02d}"] *)
Definition pad2 (n : nat) : pystr :=
  if (n <? 10)%nat then 48 :: str_of_nat n else str_of_nat n.

(** [f"{s//60}:{s%60:02d}"] *)
Definition format_duration (s : nat) : pystr :=
  str_of_nat (s / 60) ++ 58 :: pad2 (s mod 60).

(** The loop of lines 351-356: [unique] is [unique_durations]; the set
    [seen] holds the same strings.  The loop is left as soon as
    [estimated_count] distinct durations are collected. *)
Fixpoint unique_loop (estimated_count : nat) (unique durations : list pystr) : list pystr :=
  match durations with
  | [] => unique
  | d :: rest =>
      let unique' := if bool_decide (d ∈ unique) then unique else unique ++ [d] in
      if (length unique' =? estimated_count)%nat then unique'
      else unique_loop estimated_count unique' rest
  end.

(** Lines 344-358, for the seconds read from the page. *)
Definition final_durations (estimated_count : nat) (seconds : list nat) : list pystr :=
  let all_durations := List.map format_duration seconds in
  let unique_durations := unique_loop estimated_count [] all_durations in
  if (estimated_count <=? length unique_durations)%nat
  then take estimated_count unique_durations
  else take estimated_count all_durations.

(** ** Stored credentials (lines 83-101) *)

(** The cipher of [get_fernet] with the text codec around it:
    [fernet.encrypt(data.encode())] and [fernet.decrypt(encrypted).decode()],
    which raises on a token of another key or on damaged data. *)
Record Cipher := {
  seal : pystr -> list N;
  unseal : list N -> outcome pystr
}.

(** [s.split(sep, 1)]: the text before the first separator and the text
    after it, or the text alone. *)
Fixpoint split_once (sep : N) (s : pystr) : list pystr :=
  match s with
  | [] => [[]]
  | c :: s' =>
      if c =? sep then [[]; s']
      else match split_once sep s' with
           | before :: after => (c :: before) :: after
           | [] => [[c]]
           end
  end.

(** The content written to the credentials file. *)
Definition save_credentials (c : Cipher) (login password : pystr) : list N :=
  seal c (login ++ 124 :: password).

(** [load_credentials], for the content of the credentials file, [None]
    when the file does not exist.  Unpacking a split without separator
    raises, and every exception gives two empty strings. *)
Definition load_credentials (c : Cipher) (file : option (list N)) : pystr * pystr :=
  match file with
  | None => ([], [])
  | Some encrypted =>
      match unseal c encrypted with
      | Raise _ => ([], [])
      | Ok decrypted =>
          match split_once 124 decrypted with
          | [login; password] => (login, password)
          | _ => ([], [])
          end
      end
  end.

(** ** The identifier of a row *)

(** The ASIN that [main] writes for row [idx]: group 1 of the match, or
    [unknown_<idx>]. *)
Definition row_asin (idx : nat) (row : gmap pystr (option pystr)) : pystr :=
  default (lit "unknown_" ++ str_of_nat idx)
          (search_asin (default [] (row_get row (lit "amazon_url")))).

(** Whether a row of the report shows a text mismatch. *)
Definition text_differs (r : ReportRow) : bool :=
  bool_decide (r_title r = lit "DIFFER") || bool_decide (r_bullets r = lit "DIFFER").

(** Both sources fail: every read raises. *)
Definition dead_item : ItemWorld := {|
  w_amazon_get := Ok tt;
  w_amazon_page := Raise WebDriverException;
  w_amazon_videos := Raise WebDriverException;
  w_amazon_download := Raise WebDriverException;
  w_icepim_page := Raise WebDriverException;
  w_icepim_videos := Raise WebDriverException;
  w_modal_ok := false;
  w_download_listing := [];
  w_extract := Raise BadZipFile;
  w_listdir := fun _ => Raise OSError;
  w_dhash := fun _ => None
|}.

(** A cipher that stores the text as it is. *)
Definition plain_cipher : Cipher := {| seal := fun d => d; unseal := fun d => Ok d |}.

(** ** Names of the downloaded marketplace images (line 748 of
    [download_amazon_images]) *)

(** [f"{asin}.MAIN.jpg" if i == 0 else f"{asin}.PT{i:02d}.jpg"] *)
Definition amazon_filename (asin : pystr) (i : nat) : pystr :=
  if (i =? 0)%nat then asin ++ lit ".MAIN.jpg"
  else asin ++ lit ".PT" ++ pad2 i ++ lit ".jpg".

(** An ASCII digit. *)
Definition is_digit (c : N) : Prop := 48 <= c <= 57.

(** ** Scenarios used to evaluate the program *)

(** Two gallery folders: [/a] as the marketplace download names it, [/b] as a
    PIM archive may hold it, with a PNG file. *)
Definition gallery_listdir (p : pystr) : outcome (list pystr) :=
  if bool_decide (p = lit "/a") then Ok [lit "X.MAIN.jpg"; lit "X.PT01.jpg"; lit "notes.txt"]
  else if bool_decide (p = lit "/b") then Ok [lit "X.MAIN.jpg"; lit "X.PT01.jpeg"]
  else if bool_decide (p = lit "/c") then Ok [lit "X.MAIN.png"]
  else if bool_decide (p = lit "/d") then Ok [lit "X.MAIN.jpg"]
  else Raise OSError.

(** Hashes that differ in three characters for [MAIN] and in four for
    [PT01]. *)
Definition gallery_dhash (p : pystr) : option pystr :=
  if bool_decide (p = lit "/a/X.MAIN.jpg") then Some (lit "0000000000000000")
  else if bool_decide (p = lit "/b/X.MAIN.jpg") then Some (lit "1110000000000000")
  else if bool_decide (p = lit "/a/X.PT01.jpg") then Some (lit "0000000000000000")
  else if bool_decide (p = lit "/b/X.PT01.jpeg") then Some (lit "1111000000000000")
  else if bool_decide (p = lit "/c/X.MAIN.png") then Some (lit "f000000000000000")
  else if bool_decide (p = lit "/d/X.MAIN.jpg") then Some (lit "0000000000000000")
  else None.

(** A row of the work list with its two locators. *)
Definition row_of (amazon_url icepim_url : pystr) : gmap pystr (option pystr) :=
  {[ lit "amazon_url" := Some amazon_url; lit "icepim_url" := Some icepim_url ]}.

Definition demo_row : gmap pystr (option pystr) :=
  row_of (lit "https://www.amazon.de/dp/B000000001?th=1")
         (lit "https://pim.example/product?languageID=3").

(** A line of the work list that stops after its first field: the reader
    fills the missing field with [None]. *)
Definition short_row : gmap pystr (option pystr) :=
  {[ lit "amazon_url" := Some (lit "https://www.amazon.de/dp/B000000001");
     lit "icepim_url" := None ]}.

(** Both sources answer, the product is approved and its gallery archive
    arrives. *)
Definition good_item : ItemWorld := {|
  w_amazon_get := Ok tt;
  w_amazon_page :=
    Ok {| first_read := {| title_tag := Some (lit "Hello, World");
                           page_bullets := [lit "a"; lit "b"; lit "c"] |};
          second_read := {| title_tag := None; page_bullets := [] |};
          manual_link := true; brand_store_found := false |};
  w_amazon_videos := Ok (1%nat, [lit "1:30"]);
  w_amazon_download := Ok tt;
  w_icepim_page :=
    Ok (LangBlock (lit "Approved") (Some (lit " hello world "))
          [lit "a"; lit "b"; lit "a"; lit "C."]);
  w_icepim_videos := Ok (Some [ProbeLoaded (lit "1:30")]);
  w_modal_ok := true;
  w_download_listing := [lit "gallery.zip"; lit "partial.crdownload"];
  w_extract := Ok tt;
  w_listdir := fun p =>
    if bool_decide (p = lit "/work/tmp_amazon_B000000001") then Ok [lit "B000000001.MAIN.jpg"]
    else Ok [lit "B000000001.MAIN.jpg"];
  w_dhash := fun _ => Some (lit "00ff00ff00ff00ff")
|}.

(** The same, but the navigation of the marketplace session fails. *)
Definition unreachable_item : ItemWorld := {|
  w_amazon_get := Raise WebDriverException;
  w_amazon_page := w_amazon_page good_item;
  w_amazon_videos := w_amazon_videos good_item;
  w_amazon_download := w_amazon_download good_item;
  w_icepim_page := w_icepim_page good_item;
  w_icepim_videos := w_icepim_videos good_item;
  w_modal_ok := true;
  w_download_listing := w_download_listing good_item;
  w_extract := Ok tt;
  w_listdir := w_listdir good_item;
  w_dhash := w_dhash good_item
|}.

(** The same as [good_item], but the page reload of
    [download_amazon_images] times out. *)
Definition reload_timeout_item : ItemWorld := {|
  w_amazon_get := Ok tt;
  w_amazon_page := w_amazon_page good_item;
  w_amazon_videos := w_amazon_videos good_item;
  w_amazon_download := Raise WebDriverException;
  w_icepim_page := w_icepim_page good_item;
  w_icepim_videos := w_icepim_videos good_item;
  w_modal_ok := true;
  w_download_listing := w_download_listing good_item;
  w_extract := Ok tt;
  w_listdir := w_listdir good_item;
  w_dhash := w_dhash good_item
|}.

(** The same as [good_item], but the navigation of the PIM session fails. *)
Definition pim_unreachable_item : ItemWorld := {|
  w_amazon_get := Ok tt;
  w_amazon_page := w_amazon_page good_item;
  w_amazon_videos := w_amazon_videos good_item;
  w_amazon_download := w_amazon_download good_item;
  w_icepim_page := Raise WebDriverException;
  w_icepim_videos := w_icepim_videos good_item;
  w_modal_ok := true;
  w_download_listing := w_download_listing good_item;
  w_extract := Ok tt;
  w_listdir := w_listdir good_item;
  w_dhash := w_dhash good_item
|}.

(** The first row meets [first], the later rows meet [good_item]. *)
Definition first_then_good (first : ItemWorld) (idx : nat) : ItemWorld :=
  match idx with
  | 1%nat => first
  | _ => good_item
  end.

Definition all_checks : Config :=
  {| EXPORT_ENABLED := false; CHECK_IMAGES := true; CHECK_VIDEOS := true |}.

Definition text_only : Config :=
  {| EXPORT_ENABLED := false; CHECK_IMAGES := false; CHECK_VIDEOS := false |}.

(** Text comparison only, with the export of mismatches switched on. *)
Definition text_and_export : Config :=
  {| EXPORT_ENABLED := true; CHECK_IMAGES := false; CHECK_VIDEOS := false |}.

(** The same as [good_item], but the main image of the archive does not
    look like the one of the marketplace. *)
Definition other_image_item : ItemWorld := {|
  w_amazon_get := Ok tt;
  w_amazon_page := w_amazon_page good_item;
  w_amazon_videos := w_amazon_videos good_item;
  w_amazon_download := Ok tt;
  w_icepim_page := w_icepim_page good_item;
  w_icepim_videos := w_icepim_videos good_item;
  w_modal_ok := true;
  w_download_listing := w_download_listing good_item;
  w_extract := Ok tt;
  w_listdir := w_listdir good_item;
  w_dhash := fun p =>
    if bool_decide (p = lit "/work/tmp_amazon_B000000001/B000000001.MAIN.jpg")
    then Some (lit "0000000000000000")
    else Some (lit "ffffffffffffffff")
|}.

(** * Properties *)

(** ** Strings *)

Lemma re_sub_runs_delete (cls : N -> bool) (in_run : bool) (s : pystr) :
  re_sub_runs cls [] in_run s = List.filter (fun c => negb (cls c)) s.
Proof.
  revert in_run. induction s as [|c s IH]; intros in_run; simpl; [reflexivity|].
  destruct (cls c); simpl.
  - destruct in_run; simpl; apply IH.
  - f_equal. apply IH.
Qed.

Lemma clean_filter (rt : Runtime) (text : pystr) :
  clean rt text = List.filter (fun c => negb (clean_class c)) (str_lower rt (strip text)).
Proof. unfold clean, re_sub_class_plus. apply re_sub_runs_delete. Qed.

Lemma verdict_str_match (b : bool) : verdict_str b = lit "MATCH" <-> b = true.
Proof. destruct b; simpl; split; intros H; try reflexivity; discriminate H. Qed.

Lemma verdict_str_differ (b : bool) : verdict_str b = lit "DIFFER" <-> b = false.
Proof. destruct b; simpl; split; intros H; try reflexivity; discriminate H. Qed.

Lemma forallb_zip_lookup {A B : Type} (f : A * B -> bool) (la : list A) (lb : list B) :
  forallb f (zip la lb) = true <->
  forall i a b, la !! i = Some a -> lb !! i = Some b -> f (a, b) = true.
Proof.
  revert lb. induction la as [|x la IH]; intros [|y lb]; simpl.
  - split; [intros _ i a b H; destruct i; discriminate H | reflexivity].
  - split; [intros _ i a b H; destruct i; discriminate H | reflexivity].
  - split; [intros _ i a b _ H; destruct i; discriminate H | reflexivity].
  - rewrite andb_true_iff, IH. split.
    + intros [Hxy Hrest] [|i] a b Ha Hb; simpl in *.
      * congruence.
      * eapply Hrest; eassumption.
    + intros H. split.
      * apply (H 0%nat); reflexivity.
      * intros i a b Ha Hb. apply (H (S i)); assumption.
Qed.

Lemma bullets_match_spec (rt : Runtime) (bullets_a bullets_b : list pystr) :
  bullets_match rt bullets_a bullets_b = true <->
  length bullets_a = length bullets_b /\
  forall i a b, bullets_a !! i = Some a -> bullets_b !! i = Some b -> clean rt a = clean rt b.
Proof.
  unfold bullets_match. rewrite andb_true_iff, Nat.eqb_eq, forallb_zip_lookup.
  split; intros [Hlen H]; split; try exact Hlen; intros i a b Ha Hb.
  - apply (bool_decide_eq_true_1 _ (H i a b Ha Hb)).
  - apply bool_decide_eq_true_2. simpl. eauto.
Qed.

(** A permutation of bullets whose normalized forms are pairwise distinct
    passes the positional comparison only when nothing moved. *)
Lemma bullets_match_perm_eq (rt : Runtime) (bullets_a bullets_b : list pystr) :
  NoDup (clean rt <$> bullets_a) -> bullets_a ≡ₚ bullets_b ->
  bullets_match rt bullets_a bullets_b = true -> bullets_a = bullets_b.
Proof.
  intros Hnd Hperm Hm. apply bullets_match_spec in Hm as [Hlen Hpt].
  apply list_eq_same_length with (length bullets_a); [symmetry; exact Hlen | reflexivity |].
  intros i a b _ Ha Hb.
  assert (Hin : b ∈ bullets_a).
  { rewrite Hperm. apply list_elem_of_lookup. eauto. }
  apply list_elem_of_lookup in Hin as [j Hj].
  assert (Hij : i = j).
  { eapply NoDup_lookup; [exact Hnd | |].
    - rewrite list_lookup_fmap, Ha. reflexivity.
    - rewrite list_lookup_fmap, Hj. simpl. f_equal. symmetry. eauto. }
  subst j. congruence.
Qed.

(** [str.strip()] only removes characters that [clean] deletes anyway, when
    lowercasing works character by character and keeps the class. *)
Lemma filter_lstrip (f : N -> N) (s : pystr) :
  (forall c, clean_class (f c) = clean_class c) ->
  List.filter (fun c => negb (clean_class c)) (List.map f (lstrip s))
  = List.filter (fun c => negb (clean_class c)) (List.map f s).
Proof.
  intros Hf. induction s as [|c s IH]; simpl; [reflexivity|].
  destruct (is_space c) eqn:Hc; [|reflexivity].
  rewrite IH. rewrite Hf.
  unfold clean_class. rewrite Hc, !orb_true_r. reflexivity.
Qed.

Lemma filter_map_rev (f : N -> N) (s : pystr) :
  List.filter (fun c => negb (clean_class c)) (List.map f (rev s))
  = rev (List.filter (fun c => negb (clean_class c)) (List.map f s)).
Proof.
  induction s as [|c s IH]; simpl; [reflexivity|].
  rewrite List.map_app, List.filter_app, IH. simpl.
  destruct (negb (clean_class (f c))); simpl; [reflexivity | apply app_nil_r].
Qed.

Lemma filter_strip (f : N -> N) (s : pystr) :
  (forall c, clean_class (f c) = clean_class c) ->
  List.filter (fun c => negb (clean_class c)) (List.map f (strip s))
  = List.filter (fun c => negb (clean_class c)) (List.map f s).
Proof.
  intros Hf. unfold strip, rstrip.
  rewrite filter_map_rev, (filter_lstrip f _ Hf), filter_map_rev, rev_involutive.
  apply filter_lstrip, Hf.
Qed.

Lemma filter_map_class (f : N -> N) (s : pystr) :
  (forall c, clean_class (f c) = clean_class c) ->
  List.filter (fun c => negb (clean_class c)) (List.map f s)
  = List.map f (List.filter (fun c => negb (clean_class c)) s).
Proof.
  intros Hf. induction s as [|c s IH]; simpl; [reflexivity|].
  rewrite Hf. destruct (clean_class c); simpl; rewrite IH; reflexivity.
Qed.

Lemma clean_class_letters (c : N) : 60 <= c <= 130 -> clean_class c = false.
Proof.
  intros [Hlo Hhi]. unfold clean_class, is_space.
  rewrite !(proj2 (N.eqb_neq c _)) by lia.
  rewrite (proj2 (N.leb_gt c 13)), (proj2 (N.leb_gt c 32)), (proj2 (N.leb_gt 8192 c)) by lia.
  rewrite !andb_false_r. reflexivity.
Qed.

Lemma ascii_lower_class (c : N) : clean_class (ascii_lower_char c) = clean_class c.
Proof.
  unfold ascii_lower_char.
  destruct ((65 <=? c) && (c <=? 90)) eqn:H; [|reflexivity].
  apply andb_true_iff in H as [H1 H2]. apply N.leb_le in H1, H2.
  rewrite !clean_class_letters by lia. reflexivity.
Qed.

(** ** Text parity *)

(** C1, counterexample: two bullet lists that are reorderings of each other
    (equal as sets, different as sequences) and still compare as MATCH,
    because the bullets that changed place have the same normalized form. *)
Lemma C1_reordered_bullets_can_match :
  [lit "Fast."; lit "fast"] ≡ₚ [lit "fast"; lit "Fast."]
  /\ [lit "Fast."; lit "fast"] <> [lit "fast"; lit "Fast."]
  /\ verdict_str (bullets_match ascii_runtime [lit "Fast."; lit "fast"] [lit "fast"; lit "Fast."])
     = lit "MATCH".
Proof.
  split; [apply perm_swap|]. split; [discriminate|]. vm_compute. reflexivity.
Qed.

(** C1 (amended): the title verdict is MATCH exactly when the normalized
    titles are equal; the bullets verdict is MATCH exactly when the two
    sequences have the same length and the normalized bullets are equal
    index by index; and a reordered pair of bullet lists whose normalized
    bullets are pairwise distinct yields DIFFER. *)
Theorem C1_text_parity (rt : Runtime) (title_a title_b : pystr)
    (bullets_a bullets_b : list pystr) :
  (verdict_str (title_match rt title_a title_b) = lit "MATCH"
     <-> clean rt title_a = clean rt title_b)
  /\ (verdict_str (bullets_match rt bullets_a bullets_b) = lit "MATCH"
     <-> length bullets_a = length bullets_b
         /\ forall i a b, bullets_a !! i = Some a -> bullets_b !! i = Some b ->
                          clean rt a = clean rt b)
  /\ (NoDup (clean rt <$> bullets_a) -> bullets_a ≡ₚ bullets_b -> bullets_a <> bullets_b ->
      verdict_str (bullets_match rt bullets_a bullets_b) = lit "DIFFER").
Proof.
  split; [|split].
  - rewrite verdict_str_match. unfold title_match. apply bool_decide_eq_true.
  - rewrite verdict_str_match. apply bullets_match_spec.
  - intros Hnd Hperm Hne. apply verdict_str_differ.
    destruct (bullets_match rt bullets_a bullets_b) eqn:Hm; [|reflexivity].
    exfalso. apply Hne. eapply bullets_match_perm_eq; eassumption.
Qed.

Lemma C1_text_parity_witness :
  NoDup (clean ascii_runtime <$> [lit "a"; lit "b"])
  /\ [lit "a"; lit "b"] ≡ₚ [lit "b"; lit "a"]
  /\ verdict_str (bullets_match ascii_runtime [lit "a"; lit "b"] [lit "b"; lit "a"])
     = lit "DIFFER".
Proof.
  assert (Hnd : NoDup (clean ascii_runtime <$> [lit "a"; lit "b"])).
  { apply (bool_decide_unpack _). vm_compute. exact I. }
  split; [exact Hnd|]. split; [apply perm_swap|].
  destruct (C1_text_parity ascii_runtime [] [] [lit "a"; lit "b"] [lit "b"; lit "a"])
    as (_ & _ & H).
  apply H.
  - exact Hnd.
  - apply perm_swap.
  - discriminate.
Defined.

(** ** Normalizer *)

(** C2, counterexample: whitespace inside a text is deleted, not collapsed to
    one blank: "a b" normalizes to "ab", so "a b" and "ab" compare equal,
    where the normalizer the specification words keeps them apart. *)
Lemma C2_whitespace_is_deleted :
  clean ascii_runtime (lit "a b") = lit "ab"
  /\ normalize_spec ascii_runtime (lit "a b") = lit "a b"
  /\ title_match ascii_runtime (lit "a b") (lit "ab") = true
  /\ normalize_spec ascii_runtime (lit "a b") <> normalize_spec ascii_runtime (lit "ab").
Proof. repeat split; try (vm_compute; reflexivity). vm_compute. discriminate. Qed.

(** C2 (amended): [clean] is a total function of its text: it strips the ends,
    lowercases, and deletes every character of . , ; ™ © and every
    whitespace character, leaving the other characters in their order; no
    character of the set and no whitespace is left in the result; two texts
    compare equal exactly when their normal forms are equal; where
    lowercasing works character by character, two texts that differ only in
    case, in those punctuation characters or in whitespace compare equal, as
    "Hello, World™" and "hello world" do. *)
Theorem C2_normalizer (rt : Runtime) (f : N -> N) (text other : pystr) :
  clean rt text = List.filter (fun c => negb (clean_class c)) (str_lower rt (strip text))
  /\ (forall c, c ∈ clean rt text ->
        c <> 46 /\ c <> 44 /\ c <> 59 /\ c <> 8482 /\ c <> 169 /\ is_space c = false)
  /\ (title_match rt text other = true <-> clean rt text = clean rt other)
  /\ ((forall s, str_lower rt s = List.map f s) ->
      (forall c, clean_class (f c) = clean_class c) ->
      List.map f (List.filter (fun c => negb (clean_class c)) text)
        = List.map f (List.filter (fun c => negb (clean_class c)) other) ->
      title_match rt text other = true)
  /\ title_match ascii_runtime (lit "Hello, World" ++ [8482]) (lit "hello world") = true.
Proof.
  split; [apply clean_filter|]. split; [|split; [|split]].
  - intros c Hc. rewrite clean_filter in Hc.
    apply list_elem_of_In, List.filter_In in Hc as [_ Hc].
    apply negb_true_iff in Hc. unfold clean_class in Hc.
    repeat (apply orb_false_iff in Hc as [Hc ?]).
    repeat match goal with H : (_ =? _) = false |- _ => apply N.eqb_neq in H end.
    auto 10.
  - unfold title_match. apply bool_decide_eq_true.
  - intros Hlow Hcls Heq. unfold title_match. apply bool_decide_eq_true_2.
    rewrite !clean_filter, !Hlow, !(filter_strip f _ Hcls), !(filter_map_class f _ Hcls).
    exact Heq.
  - vm_compute. reflexivity.
Qed.

Lemma C2_normalizer_witness :
  (forall s, str_lower ascii_runtime s = List.map ascii_lower_char s)
  /\ title_match ascii_runtime (lit "A.b c") (lit "ab;C") = true.
Proof.
  split; [reflexivity|].
  destruct (C2_normalizer ascii_runtime ascii_lower_char (lit "A.b c") (lit "ab;C"))
    as (_ & _ & _ & H & _).
  apply H.
  - reflexivity.
  - apply ascii_lower_class.
  - vm_compute. reflexivity.
Defined.

(** ** Order of strings and [sorted] *)

Lemma str_leb_total (s t : pystr) : str_leb s t = true \/ str_leb t s = true.
Proof.
  revert t. induction s as [|a s IH]; intros [|b t]; simpl; auto.
  destruct (N.ltb_spec a b), (N.ltb_spec b a); auto; lia.
Qed.

Lemma str_leb_trans (s t u : pystr) :
  str_leb s t = true -> str_leb t u = true -> str_leb s u = true.
Proof.
  revert t u. induction s as [|a s IH]; intros [|b t] [|c u]; simpl; auto; try discriminate.
  destruct (N.ltb_spec a b), (N.ltb_spec b a), (N.ltb_spec b c), (N.ltb_spec c b),
    (N.ltb_spec a c), (N.ltb_spec c a); auto; try discriminate; try lia.
  apply IH.
Qed.

Global Instance str_le_total : Total str_le.
Proof. intros s t. apply str_leb_total. Qed.

Global Instance str_le_trans : Transitive str_le.
Proof. intros s t u. apply str_leb_trans. Qed.

Lemma sorted_perm (l : list pystr) : sorted l ≡ₚ l.
Proof. apply merge_sort_Permutation. Qed.

Lemma sorted_strongly (l : list pystr) : StronglySorted str_le (sorted l).
Proof. apply StronglySorted_merge_sort; apply _. Qed.

Lemma elem_of_sorted_elements (X : gset pystr) (d : pystr) :
  d ∈ sorted (elements X) <-> d ∈ X.
Proof. rewrite sorted_perm. apply elem_of_elements. Qed.

Lemma NoDup_sorted_elements (X : gset pystr) : NoDup (sorted (elements X)).
Proof. rewrite sorted_perm. apply NoDup_elements. Qed.

(** ** Video parity *)

Lemma has_unknown_spec (l : list pystr) :
  has_unknown_in_icepim l = true <-> exists d, d ∈ l /\ d ∈ sentinels.
Proof.
  unfold has_unknown_in_icepim. rewrite existsb_exists. split.
  - intros (d & Hd & Hs). exists d. split; [apply list_elem_of_In, Hd|].
    apply (bool_decide_eq_true_1 _ Hs).
  - intros (d & Hd & Hs). exists d. split; [apply list_elem_of_In, Hd|].
    apply bool_decide_eq_true_2, Hs.
Qed.

Lemma elem_of_known (l : list pystr) (d : pystr) :
  d ∈ icepim_known_dur l <-> d ∈ l /\ d ∉ sentinels.
Proof. unfold icepim_known_dur. rewrite list_elem_of_filter. tauto. Qed.

Lemma elem_of_missing (amazon_durations icepim_v_dur : list pystr) (d : pystr) :
  d ∈ missing_durations amazon_durations icepim_v_dur
  <-> d ∈ icepim_v_dur /\ (d ∉ sentinels) /\ (d ∉ amazon_durations).
Proof.
  unfold missing_durations.
  rewrite elem_of_difference, !elem_of_list_to_set, elem_of_known. tauto.
Qed.

Lemma known_subset_spec (amazon_durations icepim_v_dur : list pystr) :
  list_to_set (icepim_known_dur icepim_v_dur) ⊆ (list_to_set amazon_durations : gset pystr)
  <-> forall d, d ∈ icepim_v_dur -> d ∉ sentinels -> d ∈ amazon_durations.
Proof.
  split.
  - intros H d Hd Hs. specialize (H d).
    rewrite !elem_of_list_to_set, elem_of_known in H. auto.
  - intros H d. rewrite !elem_of_list_to_set, elem_of_known. intros [? ?]. auto.
Qed.

(** The three statuses are three different texts. *)
Lemma video_status_cases (rt : Runtime) (ac ic : nat) (ad idur : list pystr) :
  let r := compare_videos rt ac ad ic idur in
  (has_unknown_in_icepim idur = true /\ video_status r = lit "Warning")
  \/ (has_unknown_in_icepim idur = false
      /\ list_to_set (icepim_known_dur idur) ⊆ (list_to_set ad : gset pystr)
      /\ video_status r = lit "Match")
  \/ (has_unknown_in_icepim idur = false
      /\ ¬ list_to_set (icepim_known_dur idur) ⊆ (list_to_set ad : gset pystr)
      /\ video_status r = lit "Need upload"
      /\ video_details r
         = video_details_head ac (list_to_set ad) ic idur ++ lit "Need upload: missing "
           ++ repr_list rt (sorted (elements (missing_durations ad idur)))).
Proof.
  unfold compare_videos. cbv zeta.
  destruct (has_unknown_in_icepim idur); [left; split; reflexivity|].
  right. case_bool_decide as Hsub.
  - left. repeat split; auto.
  - right. repeat split; auto.
Qed.

(** C3: when no sentinel occurs in the PIM durations, the verdict is Match
    exactly when the set of PIM durations is included in the set of
    marketplace durations, and otherwise it is Need upload and the detail
    text lists the durations that PIM has and the marketplace lacks, each
    once, in increasing order; when a sentinel ("?:??" or "error") occurs in
    the PIM durations the verdict is Warning, whatever the marketplace has. *)
Theorem C3_video_verdict (rt : Runtime) (amazon_v_count icepim_v_count : nat)
    (amazon_durations icepim_v_dur : list pystr) :
  let r := compare_videos rt amazon_v_count amazon_durations icepim_v_count icepim_v_dur in
  let durationsA : gset pystr := list_to_set amazon_durations in
  let knownB : gset pystr := list_to_set (icepim_known_dur icepim_v_dur) in
  ((exists d, d ∈ icepim_v_dur /\ d ∈ sentinels) -> video_status r = lit "Warning")
  /\ ((forall d, d ∈ icepim_v_dur -> d ∉ sentinels) ->
      (forall d, d ∈ knownB <-> d ∈ icepim_v_dur)
      /\ (video_status r = lit "Match" <-> knownB ⊆ durationsA)
      /\ (¬ knownB ⊆ durationsA ->
          video_status r = lit "Need upload"
          /\ exists missing,
               video_details r
                 = video_details_head amazon_v_count durationsA icepim_v_count icepim_v_dur
                   ++ lit "Need upload: missing " ++ repr_list rt missing
               /\ StronglySorted str_le missing /\ NoDup missing
               /\ forall d, d ∈ missing <-> d ∈ knownB ∖ durationsA)).
Proof.
  cbv zeta.
  pose proof (video_status_cases rt amazon_v_count icepim_v_count amazon_durations
                icepim_v_dur) as Hc. cbv zeta in Hc.
  split.
  - intros Hs. apply has_unknown_spec in Hs.
    destruct Hc as [[_ H]|[(Hu & _)|(Hu & _)]]; [exact H | congruence | congruence].
  - intros Hfree.
    assert (Hu : has_unknown_in_icepim icepim_v_dur = false).
    { destruct (has_unknown_in_icepim icepim_v_dur) eqn:E; [|reflexivity].
      apply has_unknown_spec in E as (d & Hd & Hs). destruct (Hfree d Hd Hs). }
    split; [|split].
    + intros d. rewrite elem_of_list_to_set, elem_of_known. split; [tauto | auto].
    + destruct Hc as [[Hu' _]|[(_ & Hsub & Hst)|(_ & Hsub & Hst & _)]].
      * congruence.
      * split; auto.
      * rewrite Hst. split; [discriminate | intros H; destruct (Hsub H)].
    + intros Hnot.
      destruct Hc as [[Hu' _]|[(_ & Hsub & _)|(_ & _ & Hst & Hdet)]].
      * congruence.
      * destruct (Hnot Hsub).
      * split; [exact Hst|].
        exists (sorted (elements (missing_durations amazon_durations icepim_v_dur))).
        split; [exact Hdet|]. split; [apply sorted_strongly|].
        split; [apply NoDup_sorted_elements|].
        intros d. apply elem_of_sorted_elements.
Qed.

Lemma C3_video_verdict_witness :
  (forall d, d ∈ [lit "1:30"; lit "3:10"] -> d ∉ sentinels)
  /\ video_status (compare_videos ascii_runtime 2 [lit "1:30"; lit "2:00"] 2
                     [lit "1:30"; lit "3:10"]) = lit "Need upload"
  /\ ((exists d, d ∈ [lit "?:??"] /\ d ∈ sentinels)
      /\ video_status (compare_videos ascii_runtime 2 [lit "1:30"; lit "2:00"] 1
                         [lit "?:??"]) = lit "Warning").
Proof.
  assert (Hfree : forall d, d ∈ [lit "1:30"; lit "3:10"] -> d ∉ sentinels).
  { intros d Hd Hs. apply list_elem_of_In in Hd, Hs. simpl in Hd, Hs.
    destruct Hd as [<-|[<-|[]]]; destruct Hs as [Hs|[Hs|[]]]; discriminate Hs. }
  assert (Hsent : exists d, d ∈ [lit "?:??"] /\ d ∈ sentinels).
  { exists (lit "?:??"). split; apply list_elem_of_In; simpl; auto. }
  split; [exact Hfree|]. split.
  - destruct (C3_video_verdict ascii_runtime 2 2 [lit "1:30"; lit "2:00"]
                [lit "1:30"; lit "3:10"]) as [_ H].
    destruct (H Hfree) as (_ & _ & Hneed).
    apply Hneed. intros Hsub.
    assert (Hin : lit "3:10" ∈ (list_to_set [lit "1:30"; lit "2:00"] : gset pystr)).
    { apply Hsub. apply elem_of_list_to_set, elem_of_known. split.
      - apply list_elem_of_In. simpl. auto.
      - apply Hfree. apply list_elem_of_In. simpl. auto. }
    apply elem_of_list_to_set, list_elem_of_In in Hin. simpl in Hin.
    destruct Hin as [Hin|[Hin|[]]]; discriminate Hin.
  - split; [exact Hsent|].
    apply (C3_video_verdict ascii_runtime 2 1 [lit "1:30"; lit "2:00"] [lit "?:??"]).
    exact Hsent.
Defined.

(** ** Image parity *)

Lemma hash_distance_sym (h1 h2 : pystr) : hash_distance h1 h2 = hash_distance h2 h1.
Proof.
  unfold hash_distance. revert h2.
  induction h1 as [|c1 h1 IH]; intros [|c2 h2]; simpl; try reflexivity.
  rewrite !filter_cons. simpl.
  destruct (decide (c1 ≠ c2)) as [H1|H1], (decide (c2 ≠ c1)) as [H2|H2]; simpl; auto.
  - exfalso. apply H2. intros ->. apply H1. reflexivity.
  - exfalso. apply H1. intros ->. apply H2. reflexivity.
Qed.

Lemma filter_both_length {A : Type} (p q : A -> bool) (l : list A) :
  (length (List.filter (fun x => p x && q x) l) <= length (List.filter p l))%nat
  /\ (length (List.filter (fun x => p x && q x) l) = length (List.filter p l)
      <-> forall x, In x l -> p x = true -> q x = true).
Proof.
  induction l as [|x l [IHle IHeq]]; simpl.
  - split; [lia|]. split; [intros _ x []|reflexivity].
  - destruct (p x) eqn:Hp, (q x) eqn:Hq; simpl.
    + split; [lia|]. rewrite Nat.succ_inj_wd, IHeq. split.
      * intros H y [<-|Hy]; auto.
      * intros H y Hy. apply H. right. exact Hy.
    + split; [lia|]. split; [lia|].
      intros H. specialize (H x (or_introl eq_refl) Hp). congruence.
    + split; [exact IHle|]. rewrite IHeq. split.
      * intros H y [<-|Hy]; [congruence | auto].
      * intros H y Hy. apply H. right. exact Hy.
    + split; [exact IHle|]. rewrite IHeq. split.
      * intros H y [<-|Hy]; [congruence | auto].
      * intros H y Hy. apply H. right. exact Hy.
Qed.

Section ImageFacts.
Variable rt : Runtime.
Variable path_exists : pystr -> bool.
Variable listdir : pystr -> outcome (list pystr).
Variable get_dhash : pystr -> option pystr.

Lemma compare_pair_sym (x y a i : pystr) :
  compare_pair rt get_dhash x y a i = compare_pair rt get_dhash y x i a.
Proof.
  unfold compare_pair. rewrite andb_comm.
  destruct (truthy _ && truthy _); [|reflexivity].
  rewrite hash_distance_sym. reflexivity.
Qed.

Lemma forms_pair_sym (a_dict i_dict : gmap pystr pystr) (base : pystr) :
  forms_pair a_dict i_dict base = forms_pair i_dict a_dict base.
Proof. unfold forms_pair. apply andb_comm. Qed.

Lemma compare_step_sym (x y : pystr) (a_dict i_dict : gmap pystr pystr)
    (acc : nat * nat) (base : pystr) :
  compare_step rt get_dhash x y a_dict i_dict acc base
  = compare_step rt get_dhash y x i_dict a_dict acc base.
Proof.
  unfold compare_step. rewrite forms_pair_sym, compare_pair_sym. reflexivity.
Qed.

Lemma compare_loop_sym (x y : pystr) (a_dict i_dict : gmap pystr pystr) (l : list pystr) :
  compare_loop rt get_dhash x y a_dict i_dict l
  = compare_loop rt get_dhash y x i_dict a_dict l.
Proof.
  unfold compare_loop. generalize (0, 0)%nat.
  induction l as [|base l IH]; intros acc; simpl; [reflexivity|].
  rewrite compare_step_sym. apply IH.
Qed.

(** The two counters after the loop: the pairs that match, and the pairs. *)
Lemma compare_loop_counts (x y : pystr) (a_dict i_dict : gmap pystr pystr) (l : list pystr) :
  compare_loop rt get_dhash x y a_dict i_dict l
  = (length (List.filter
       (fun base => forms_pair a_dict i_dict base
          && bool_decide (compare_pair rt get_dhash x y (default [] (a_dict !! base))
                            (default [] (i_dict !! base)) = PairMatch)) l),
     length (List.filter (forms_pair a_dict i_dict) l)).
Proof.
  unfold compare_loop.
  enough (H : forall acc,
    foldl (compare_step rt get_dhash x y a_dict i_dict) acc l
    = (acc.1 + length (List.filter
         (fun base => forms_pair a_dict i_dict base
            && bool_decide (compare_pair rt get_dhash x y (default [] (a_dict !! base))
                              (default [] (i_dict !! base)) = PairMatch)) l),
       acc.2 + length (List.filter (forms_pair a_dict i_dict) l))%nat).
  { rewrite H. reflexivity. }
  induction l as [|base l IH]; intros [m t]; simpl.
  - f_equal; lia.
  - rewrite IH. unfold compare_step.
    destruct (forms_pair a_dict i_dict base); simpl; [|reflexivity].
    destruct (compare_pair _ _ _ _ _ _) eqn:E; simpl; f_equal; lia.
Qed.

Lemma base_dict_values (files : list pystr) (base f : pystr) :
  base_dict rt files !! base = Some f -> In f files.
Proof.
  unfold base_dict.
  enough (H : forall d : gmap pystr pystr,
    foldl (fun d f => <[(splitext rt f).1 := f]> d) d files !! base = Some f ->
    d !! base = Some f \/ In f files).
  { intros Hl. destruct (H ∅ Hl) as [He|Hin]; [|exact Hin].
    rewrite lookup_empty in He. discriminate He. }
  induction files as [|g files IH]; intros d Hl; simpl in *; [left; exact Hl|].
  destruct (IH _ Hl) as [Hd|Hin]; [|right; right; exact Hin].
  destruct (decide ((splitext rt g).1 = base)) as [Heq|Hne].
  - rewrite <- Heq, lookup_insert_eq in Hd. right. left. congruence.
  - rewrite lookup_insert_ne in Hd by exact Hne. left. exact Hd.
Qed.

Lemma truthy_base_dict (p : pystr -> bool) (listing : list pystr) (base : pystr) :
  Forall (fun f => f <> []) listing ->
  truthy (base_dict rt (List.filter p listing) !! base)
  = bool_decide (is_Some (base_dict rt (List.filter p listing) !! base)).
Proof.
  intros Hne. destruct (base_dict rt (List.filter p listing) !! base) as [f|] eqn:E.
  - apply base_dict_values, List.filter_In in E as [Hin _].
    rewrite List.Forall_forall in Hne. specialize (Hne f Hin).
    destruct f; [congruence|]. symmetry. apply bool_decide_eq_true_2. eauto.
  - symmetry. apply bool_decide_eq_false_2. intros [? ?]. discriminate.
Qed.

(** What the function returns for a PIM folder that exists and two folders
    that can be listed. *)
Lemma compare_images_listed (amazon_folder icepim_folder : pystr)
    (a_listing i_listing : list pystr) :
  icepim_folder <> [] -> path_exists icepim_folder = true ->
  listdir amazon_folder = Ok a_listing -> listdir icepim_folder = Ok i_listing ->
  let a_files := List.filter (is_amazon_image rt) a_listing in
  let i_files := List.filter (is_icepim_image rt) i_listing in
  let a_dict := base_dict rt a_files in
  let i_dict := base_dict rt i_files in
  let bases := sorted (elements (dom a_dict ∪ dom i_dict)) in
  let counters := compare_loop rt get_dhash amazon_folder icepim_folder a_dict i_dict bases in
  let counts := str_of_nat (length a_files) ++ lit " Amazon / "
                  ++ str_of_nat (length i_files) ++ lit " PIM, " in
  exists r,
    compare_images_by_name_strict rt path_exists listdir get_dhash amazon_folder
      (Some icepim_folder) = Ok r
    /\ summary r = str_of_nat (length a_files) ++ lit "/" ++ str_of_nat (length i_files)
    /\ images_match r
       = (length a_files =? length i_files)%nat && (counters.1 =? counters.2)%nat
    /\ (images_match r = false ->
        exists middle,
          detailed_summary r
          = counts ++ middle ++ str_of_nat (counters.2 - counters.1) ++ lit " Mismatch").
Proof.
  intros Hne Hex Hla Hli. cbv zeta.
  unfold compare_images_by_name_strict.
  destruct icepim_folder as [|c rest]; [congruence|].
  simpl truthy. simpl default. rewrite Hex, Hla, Hli. simpl negb. simpl orb. cbv iota.
  destruct (compare_loop _ _ _ _ _ _ _) as [matched total_pairs]. simpl fst. simpl snd.
  destruct ((length _ =? length _)%nat && (matched =? total_pairs)%nat) eqn:Hall.
  - eexists. split; [reflexivity|]. simpl. repeat split; discriminate.
  - destruct (negb (length _ =? length _)%nat) eqn:Hcount.
    + eexists. split; [reflexivity|]. simpl. repeat split.
      intros _. exists (lit "Different q-ty, "). rewrite <- !app_assoc. reflexivity.
    + eexists. split; [reflexivity|]. simpl. repeat split.
      intros _. exists (str_of_nat matched ++ lit " Match, ").
      rewrite <- !app_assoc. reflexivity.
Qed.
End ImageFacts.

Lemma filter_length_perm {A : Type} (f : A -> bool) (l l' : list A) :
  l ≡ₚ l' -> length (List.filter f l) = length (List.filter f l').
Proof.
  induction 1 as [|x l l' _ IH|x y l|l l' l'' _ IH1 _ IH2]; simpl.
  - reflexivity.
  - destruct (f x); simpl; congruence.
  - destruct (f x), (f y); reflexivity.
  - congruence.
Qed.

Lemma filter_length_diff {A : Type} (p q : A -> bool) (l : list A) :
  (length (List.filter p l) - length (List.filter (fun x => p x && q x) l))%nat
  = length (List.filter (fun x => p x && negb (q x)) l).
Proof.
  induction l as [|x l IH]; simpl; [reflexivity|].
  pose proof (proj1 (filter_both_length p q l)) as Hle.
  destruct (p x), (q x); simpl; lia.
Qed.

Lemma filter_length_ext {A : Type} (f g : A -> bool) (l : list A) :
  (forall x, In x l -> f x = g x) -> length (List.filter f l) = length (List.filter g l).
Proof.
  intros H. rewrite (List.filter_ext_in f g l H). reflexivity.
Qed.

(** C4: for a PIM folder that exists and two folders that can be listed, the
    overall images verdict is a match exactly when the two folders hold the
    same number of image files and every pair formed from a base key present
    in both folders is a MATCH pair; otherwise (a count mismatch, a DIFFER
    pair or an ERROR pair) it is a mismatch, and the detail text gives the two
    counts and the number of pairs that are not MATCH. *)
Theorem C4_gallery_verdict (rt : Runtime) (path_exists : pystr -> bool)
    (listdir : pystr -> outcome (list pystr)) (get_dhash : pystr -> option pystr)
    (amazon_folder icepim_folder : pystr) (a_listing i_listing : list pystr) :
  icepim_folder <> [] -> path_exists icepim_folder = true ->
  listdir amazon_folder = Ok a_listing -> listdir icepim_folder = Ok i_listing ->
  Forall (fun f => f <> []) a_listing -> Forall (fun f => f <> []) i_listing ->
  let a_files := List.filter (is_amazon_image rt) a_listing in
  let i_files := List.filter (is_icepim_image rt) i_listing in
  let a_dict := base_dict rt a_files in
  let i_dict := base_dict rt i_files in
  let verdict := pair_verdict rt get_dhash amazon_folder icepim_folder a_dict i_dict in
  let tally :=
    length (List.filter (fun base => pair_mismatch (verdict base))
                        (elements (dom a_dict ∪ dom i_dict))) in
  exists r,
    compare_images_by_name_strict rt path_exists listdir get_dhash amazon_folder
      (Some icepim_folder) = Ok r
    /\ (images_match r = true
        <-> length a_files = length i_files
            /\ forall base v, verdict base = Some v -> v = PairMatch)
    /\ (images_match r = false ->
        exists middle,
          detailed_summary r
          = str_of_nat (length a_files) ++ lit " Amazon / " ++ str_of_nat (length i_files)
            ++ lit " PIM, " ++ middle ++ str_of_nat tally ++ lit " Mismatch").
Proof.
  intros Hne Hex Hla Hli Hna Hni. cbv zeta.
  destruct (compare_images_listed rt path_exists listdir get_dhash amazon_folder
              icepim_folder a_listing i_listing Hne Hex Hla Hli)
    as (r & Hr & _ & Hmatch & Hdetail).
  cbv zeta in Hmatch, Hdetail.
  set (a_dict := base_dict rt (List.filter (is_amazon_image rt) a_listing)) in *.
  set (i_dict := base_dict rt (List.filter (is_icepim_image rt) i_listing)) in *.
  set (bases := sorted (elements (dom a_dict ∪ dom i_dict))) in *.
  rewrite compare_loop_counts in Hmatch, Hdetail. simpl fst in *. simpl snd in *.
  assert (Hpair : forall base,
    forms_pair a_dict i_dict base = true <->
    exists a_file i_file, a_dict !! base = Some a_file /\ i_dict !! base = Some i_file).
  { intros base. unfold forms_pair, a_dict, i_dict.
    rewrite !truthy_base_dict by assumption.
    rewrite andb_true_iff, !bool_decide_eq_true. unfold is_Some. split.
    - intros [[a Ha] [i Hi]]. eauto.
    - intros (a & i & Ha & Hi). eauto. }
  exists r. split; [exact Hr|]. split.
  - rewrite Hmatch, andb_true_iff, !Nat.eqb_eq.
    rewrite (proj2 (filter_both_length _ _ bases)).
    apply and_iff_compat_l. split.
    + intros H base v Hv. unfold pair_verdict in Hv.
      destruct (a_dict !! base) as [a_file|] eqn:Ha; [|discriminate].
      destruct (i_dict !! base) as [i_file|] eqn:Hi; [|discriminate].
      assert (Hin : In base bases).
      { apply list_elem_of_In, elem_of_sorted_elements, elem_of_union. left.
        apply elem_of_dom. eauto. }
      specialize (H base Hin (proj2 (Hpair base) (ex_intro _ _ (ex_intro _ _ (conj Ha Hi))))).
      apply bool_decide_eq_true_1 in H. rewrite Ha, Hi in H. simpl in H. congruence.
    + intros H base _ Hfp. apply Hpair in Hfp as (a_file & i_file & Ha & Hi).
      apply bool_decide_eq_true_2. rewrite Ha, Hi. simpl.
      apply (H base). unfold pair_verdict. rewrite Ha, Hi. reflexivity.
  - intros Hfalse. destruct (Hdetail Hfalse) as [middle Hd].
    exists middle. rewrite Hd, <- !app_assoc. do 6 f_equal.
    rewrite filter_length_diff.
    rewrite (filter_length_perm _ bases (elements (dom a_dict ∪ dom i_dict)))
      by apply sorted_perm.
    apply (f_equal str_of_nat).
    apply filter_length_ext. intros base _. unfold pair_verdict.
    destruct (forms_pair a_dict i_dict base) eqn:Hfp.
    + apply Hpair in Hfp as (a_file & i_file & Ha & Hi). rewrite Ha, Hi. simpl.
      destruct (compare_pair _ _ _ _ _ _); reflexivity.
    + simpl. destruct (a_dict !! base) as [a_file|] eqn:Ha; [|reflexivity].
      destruct (i_dict !! base) as [i_file|] eqn:Hi; [|reflexivity].
      rewrite (proj2 (Hpair base)) in Hfp by eauto. discriminate Hfp.
Qed.

Lemma C4_gallery_verdict_witness :
  gallery_listdir (lit "/a") = Ok [lit "X.MAIN.jpg"; lit "X.PT01.jpg"; lit "notes.txt"]
  /\ gallery_listdir (lit "/b") = Ok [lit "X.MAIN.jpg"; lit "X.PT01.jpeg"]
  /\ exists r,
       compare_images_by_name_strict ascii_runtime (fun _ => true) gallery_listdir
         gallery_dhash (lit "/a") (Some (lit "/b")) = Ok r
       /\ images_match r = false
       /\ detailed_summary r = lit "2 Amazon / 2 PIM, 1 Match, 1 Mismatch".
Proof.
  split; [reflexivity|]. split; [reflexivity|].
  destruct (C4_gallery_verdict ascii_runtime (fun _ => true) gallery_listdir gallery_dhash
              (lit "/a") (lit "/b")
              [lit "X.MAIN.jpg"; lit "X.PT01.jpg"; lit "notes.txt"]
              [lit "X.MAIN.jpg"; lit "X.PT01.jpeg"])
    as (r & Hr & _ & _).
  - discriminate.
  - reflexivity.
  - reflexivity.
  - reflexivity.
  - repeat constructor; discriminate.
  - repeat constructor; discriminate.
  - exists r. split; [exact Hr|].
    assert (Hv : compare_images_by_name_strict ascii_runtime (fun _ => true) gallery_listdir
                   gallery_dhash (lit "/a") (Some (lit "/b"))
                 = Ok {| summary := lit "2/2"; images_match := false;
                         detailed_summary := lit "2 Amazon / 2 PIM, 1 Match, 1 Mismatch" |}).
    { vm_compute. reflexivity. }
    rewrite Hv in Hr. injection Hr as <-. split; reflexivity.
Defined.

(** C5, counterexample: two hashes whose hexadecimal texts differ in one
    character, f against 0, are four bits apart, and the pair is a MATCH:
    the distance that is compared with the threshold counts characters of
    the hexadecimal text, not bits. *)
Lemma C5_four_bits_apart_match :
  gallery_dhash (posix_join (lit "/c") (lit "X.MAIN.png")) = Some (lit "f000000000000000")
  /\ gallery_dhash (posix_join (lit "/d") (lit "X.MAIN.jpg")) = Some (lit "0000000000000000")
  /\ bit_distance_spec (lit "f000000000000000") (lit "0000000000000000") = 4%nat
  /\ hash_distance (lit "f000000000000000") (lit "0000000000000000") = 1%nat
  /\ compare_pair ascii_runtime gallery_dhash (lit "/c") (lit "/d")
       (lit "X.MAIN.png") (lit "X.MAIN.jpg") = PairMatch.
Proof. repeat split; vm_compute; reflexivity. Qed.

(** C5 (amended): the pair verdict is MATCH exactly when both hashes were
    computed and their hexadecimal texts differ in at most 3 character
    positions; it is DIFFER when they differ in 4 positions or more, and
    ERROR when a hash is missing.  At the boundary, 3 differing characters
    give MATCH and 4 give DIFFER. *)
Theorem C5_pair_threshold (rt : Runtime) (get_dhash : pystr -> option pystr)
    (amazon_folder icepim_folder a_file i_file : pystr) :
  let h1 := get_dhash (path_join rt amazon_folder a_file) in
  let h2 := get_dhash (path_join rt icepim_folder i_file) in
  let verdict := compare_pair rt get_dhash amazon_folder icepim_folder a_file i_file in
  (verdict = PairMatch
     <-> truthy h1 = true /\ truthy h2 = true
         /\ (hash_distance (default [] h1) (default [] h2) <= IMAGE_THRESHOLD)%nat)
  /\ (verdict = PairDiffer
     <-> truthy h1 = true /\ truthy h2 = true
         /\ (IMAGE_THRESHOLD < hash_distance (default [] h1) (default [] h2))%nat)
  /\ (verdict = PairError <-> truthy h1 = false \/ truthy h2 = false)
  /\ IMAGE_THRESHOLD = 3%nat
  /\ (forall x y, h1 = Some x -> h2 = Some y -> hash_distance x y = 3%nat ->
      verdict = PairMatch)
  /\ (forall x y, h1 = Some x -> h2 = Some y -> hash_distance x y = 4%nat ->
      verdict = PairDiffer).
Proof.
  cbv zeta. unfold compare_pair.
  set (h1 := get_dhash (path_join rt amazon_folder a_file)).
  set (h2 := get_dhash (path_join rt icepim_folder i_file)).
  assert (Hpos : forall x y : pystr, (0 < hash_distance x y)%nat ->
                   truthy (Some x) = true /\ truthy (Some y) = true).
  { intros [|a x] [|b y]; unfold hash_distance; simpl; intros; try lia; auto. }
  split; [|split; [|split; [|split; [reflexivity|split]]]].
  - destruct (truthy h1), (truthy h2); simpl;
      try (split; [discriminate | intros (? & ? & ?); discriminate]).
    destruct (Nat.leb_spec (hash_distance (default [] h1) (default [] h2)) IMAGE_THRESHOLD).
    + split; auto.
    + split; [discriminate | intros (_ & _ & ?); lia].
  - destruct (truthy h1), (truthy h2); simpl;
      try (split; [discriminate | intros (? & ? & ?); discriminate]).
    destruct (Nat.leb_spec (hash_distance (default [] h1) (default [] h2)) IMAGE_THRESHOLD).
    + split; [discriminate | intros (_ & _ & ?); lia].
    + split; auto.
  - destruct (truthy h1), (truthy h2); simpl; try (split; auto; fail).
    destruct (_ <=? _)%nat; split; try discriminate; intros [?|?]; discriminate.
  - intros x y Hx Hy Hd. rewrite Hx, Hy. destruct (Hpos x y) as [-> ->]; [lia|].
    simpl. rewrite Hd. reflexivity.
  - intros x y Hx Hy Hd. rewrite Hx, Hy. destruct (Hpos x y) as [-> ->]; [lia|].
    simpl. rewrite Hd. reflexivity.
Qed.

Lemma C5_pair_threshold_witness :
  hash_distance (lit "0000000000000000") (lit "1110000000000000") = 3%nat
  /\ compare_pair ascii_runtime gallery_dhash (lit "/a") (lit "/b")
       (lit "X.MAIN.jpg") (lit "X.MAIN.jpg") = PairMatch
  /\ hash_distance (lit "0000000000000000") (lit "1111000000000000") = 4%nat
  /\ compare_pair ascii_runtime gallery_dhash (lit "/a") (lit "/b")
       (lit "X.PT01.jpg") (lit "X.PT01.jpeg") = PairDiffer.
Proof.
  split; [reflexivity|]. split.
  - destruct (C5_pair_threshold ascii_runtime gallery_dhash (lit "/a") (lit "/b")
                (lit "X.MAIN.jpg") (lit "X.MAIN.jpg")) as (_ & _ & _ & _ & H3 & _).
    apply (H3 (lit "0000000000000000") (lit "1110000000000000")); reflexivity.
  - split; [reflexivity|].
    destruct (C5_pair_threshold ascii_runtime gallery_dhash (lit "/a") (lit "/b")
                (lit "X.PT01.jpg") (lit "X.PT01.jpeg")) as (_ & _ & _ & _ & _ & H4).
    apply (H4 (lit "0000000000000000") (lit "1111000000000000")); reflexivity.
Defined.

(** C6, counterexample: a folder that holds a PNG file is counted when it is
    passed as the PIM folder and not when it is passed as the marketplace
    folder, so swapping the two folders turns a match into a mismatch. *)
Lemma C6_swap_changes_outcome :
  (exists r,
     compare_images_by_name_strict ascii_runtime (fun _ => true) gallery_listdir
       gallery_dhash (lit "/d") (Some (lit "/c")) = Ok r
     /\ images_match r = true)
  /\ (exists r,
        compare_images_by_name_strict ascii_runtime (fun _ => true) gallery_listdir
          gallery_dhash (lit "/c") (Some (lit "/d")) = Ok r
        /\ images_match r = false).
Proof.
  split; eexists; (split; [vm_compute; reflexivity | reflexivity]).
Qed.

(** C6 (amended): for two folders that exist and can be listed, and in which
    the marketplace filter (.jpg, .jpeg) and the PIM filter (.jpg, .jpeg,
    .png) select the same files, swapping the folder passed as marketplace
    folder and the one passed as PIM folder does not change the overall
    outcome; the two counts of the summary change places. *)
Theorem C6_swap_symmetric (rt : Runtime) (path_exists : pystr -> bool)
    (listdir : pystr -> outcome (list pystr)) (get_dhash : pystr -> option pystr)
    (folder_x folder_y : pystr) (x_listing y_listing : list pystr) :
  folder_x <> [] -> folder_y <> [] ->
  path_exists folder_x = true -> path_exists folder_y = true ->
  listdir folder_x = Ok x_listing -> listdir folder_y = Ok y_listing ->
  (forall f, In f (x_listing ++ y_listing) -> is_amazon_image rt f = is_icepim_image rt f) ->
  exists r r',
    compare_images_by_name_strict rt path_exists listdir get_dhash folder_x
      (Some folder_y) = Ok r
    /\ compare_images_by_name_strict rt path_exists listdir get_dhash folder_y
         (Some folder_x) = Ok r'
    /\ images_match r = images_match r'
    /\ summary r = str_of_nat (length (List.filter (is_amazon_image rt) x_listing))
                     ++ lit "/" ++ str_of_nat (length (List.filter (is_amazon_image rt) y_listing))
    /\ summary r' = str_of_nat (length (List.filter (is_amazon_image rt) y_listing))
                      ++ lit "/" ++ str_of_nat (length (List.filter (is_amazon_image rt) x_listing)).
Proof.
  intros Hx Hy Hex Hey Hlx Hly Hsame.
  assert (Hfx : List.filter (is_icepim_image rt) x_listing
                = List.filter (is_amazon_image rt) x_listing).
  { apply List.filter_ext_in. intros f Hf. symmetry. apply Hsame, in_or_app. auto. }
  assert (Hfy : List.filter (is_icepim_image rt) y_listing
                = List.filter (is_amazon_image rt) y_listing).
  { apply List.filter_ext_in. intros f Hf. symmetry. apply Hsame, in_or_app. auto. }
  destruct (compare_images_listed rt path_exists listdir get_dhash folder_x folder_y
              x_listing y_listing Hy Hey Hlx Hly) as (r & Hr & Hs & Hm & _).
  destruct (compare_images_listed rt path_exists listdir get_dhash folder_y folder_x
              y_listing x_listing Hx Hex Hly Hlx) as (r' & Hr' & Hs' & Hm' & _).
  cbv zeta in Hm, Hm'. rewrite Hfy in Hs, Hm. rewrite Hfx in Hs', Hm'.
  exists r, r'. repeat split; try assumption.
  rewrite Hm, Hm'.
  set (dx := base_dict rt (List.filter (is_amazon_image rt) x_listing)).
  set (dy := base_dict rt (List.filter (is_amazon_image rt) y_listing)).
  rewrite (union_comm_L (dom dy) (dom dx)).
  rewrite (compare_loop_sym rt get_dhash folder_y folder_x dy dx).
  rewrite (Nat.eqb_sym (length (List.filter (is_amazon_image rt) y_listing))).
  reflexivity.
Qed.

Lemma C6_swap_symmetric_witness :
  (forall f, In f ([lit "X.MAIN.jpg"; lit "X.PT01.jpg"; lit "notes.txt"]
                     ++ [lit "X.MAIN.jpg"; lit "X.PT01.jpeg"]) ->
             is_amazon_image ascii_runtime f = is_icepim_image ascii_runtime f)
  /\ exists r r',
       compare_images_by_name_strict ascii_runtime (fun _ => true) gallery_listdir
         gallery_dhash (lit "/a") (Some (lit "/b")) = Ok r
       /\ compare_images_by_name_strict ascii_runtime (fun _ => true) gallery_listdir
            gallery_dhash (lit "/b") (Some (lit "/a")) = Ok r'
       /\ images_match r = images_match r'.
Proof.
  assert (Hsame : forall f, In f ([lit "X.MAIN.jpg"; lit "X.PT01.jpg"; lit "notes.txt"]
                                    ++ [lit "X.MAIN.jpg"; lit "X.PT01.jpeg"]) ->
                    is_amazon_image ascii_runtime f = is_icepim_image ascii_runtime f).
  { intros f Hf. simpl in Hf.
    repeat (destruct Hf as [<-|Hf]; [vm_compute; reflexivity|]). destruct Hf. }
  split; [exact Hsame|].
  destruct (C6_swap_symmetric ascii_runtime (fun _ => true) gallery_listdir gallery_dhash
              (lit "/a") (lit "/b")
              [lit "X.MAIN.jpg"; lit "X.PT01.jpg"; lit "notes.txt"]
              [lit "X.MAIN.jpg"; lit "X.PT01.jpeg"])
    as (r & r' & Hr & Hr' & Hm & _).
  - discriminate.
  - discriminate.
  - reflexivity.
  - reflexivity.
  - reflexivity.
  - reflexivity.
  - exact Hsame.
  - exists r, r'. auto.
Defined.

(** ** The loop of [main] *)

Lemma endswith_nonempty (f suffix : pystr) : suffix <> [] -> endswith f suffix = true -> f <> [].
Proof.
  intros Hs H ->. unfold endswith in H. apply bool_decide_eq_true_1 in H.
  destruct suffix as [|c rest]; [congruence|]. simpl in H. discriminate H.
Qed.

Lemma paths_of_cons_Some (p : pystr) (l : list (option pystr)) :
  paths_of (Some p :: l) = {[p]} ∪ paths_of l.
Proof. reflexivity. Qed.

Lemma paths_of_cons_None (l : list (option pystr)) : paths_of (None :: l) = paths_of l.
Proof. reflexivity. Qed.

Lemma paths_of_nil : paths_of [] = ∅.
Proof. reflexivity. Qed.

Lemma lit_zip_nonempty : lit ".zip" <> [].
Proof. discriminate. Qed.

Lemma tmp_amazon_nonempty (asin : pystr) : lit "tmp_amazon_" ++ asin <> [].
Proof. discriminate. Qed.

Lemma tmp_icepim_nonempty (asin : pystr) : lit "tmp_icepim_" ++ asin <> [].
Proof. discriminate. Qed.

Lemma last_In {A : Type} (l : list A) (x : A) : last l = Some x -> In x l.
Proof.
  intros H. apply last_Some in H as [l' ->]. apply in_or_app. right. left. reflexivity.
Qed.

Lemma remove_if_exists_spec (p : option pystr) (s s1 : State) (o : outcome unit) :
  remove_if_exists p s = (s1, o) ->
  o = Ok tt /\ report s1 = report s
  /\ (p <> Some [] -> disk s1 = disk s ∖ paths_of [p]).
Proof.
  unfold remove_if_exists, remove, modify, mret, M_ret. intros H.
  destruct p as [[|c p]|].
  - injection H as <- <-. repeat split. congruence.
  - case_bool_decide as Hin; injection H as <- <-; repeat split; intros _.
    + simpl. rewrite paths_of_cons_Some, paths_of_nil. set_solver.
    + rewrite paths_of_cons_Some, paths_of_nil. set_solver.
  - injection H as <- <-. repeat split. intros _.
    rewrite paths_of_cons_None, paths_of_nil. set_solver.
Qed.

Lemma paths_of_difference (d : gset pystr) (a b c : option pystr) :
  ((d ∖ paths_of [a]) ∖ paths_of [b]) ∖ paths_of [c] = d ∖ paths_of [a; b; c].
Proof.
  destruct a, b, c;
    rewrite ?paths_of_cons_Some, ?paths_of_cons_None, ?paths_of_nil; set_solver.
Qed.

(** Case analysis on everything a run inspects. *)
Ltac run_cases H :=
  repeat match type of H with
  | context [match ?x with _ => _ end] =>
      let E := fresh "E" in
      destruct x eqn:E; cbv beta iota zeta in H; try run_cases E
  end.

Ltac unfold_monad H :=
  unfold create, remove, modify, gets, lift, mbind, M_bind, mret, M_ret in H;
  cbv beta iota zeta in H.

Section ProgramFacts.
Variable rt : Runtime.
Variable cfg : Config.
Variable world : nat -> ItemWorld.
Opaque lit.

Lemma process_amazon_spec (row : gmap pystr (option pystr)) (idx : nat) (s s1 : State)
    (o : outcome (pystr * AmazonData * option pystr)) :
  process_amazon rt cfg world row idx s = (s1, o) ->
  report s1 = report s
  /\ match o with
     | Ok (_, amazon_data, amazon_folder) =>
         amazon_data = parse_amazon cfg (world idx)
         /\ disk s1 = paths_of [amazon_folder] ∪ disk s
         /\ (CHECK_IMAGES cfg = false -> amazon_folder = None)
         /\ (join_nonempty rt -> amazon_folder <> Some [])
     | Raise _ => True
     end.
Proof.
  unfold process_amazon, download_amazon_images. intros H. unfold_monad H.
  run_cases H; simplify_eq; (split; [reflexivity|]); try exact I;
    (split; [reflexivity|]); (split; [|split]).
  - rewrite paths_of_cons_Some, paths_of_nil. cbn [disk set_disk]. set_solver.
  - intros Hc. congruence.
  - intros Hj Hp. injection Hp as Hp. apply Hj in Hp; [exact Hp|].
    apply tmp_amazon_nonempty.
  - rewrite paths_of_cons_None, paths_of_nil. set_solver.
  - reflexivity.
  - discriminate.
Qed.

Lemma process_icepim_spec (row : gmap pystr (option pystr)) (idx : nat) (s s1 : State)
    (o : outcome (IcepimData * option pystr * option pystr)) :
  process_icepim rt cfg world row idx s = (s1, o) ->
  report s1 = report s
  /\ match o with
     | Ok (icepim_data, icepim_folder, zip_path) =>
         icepim_data = parse_icepim cfg (world idx)
         /\ disk s1 = paths_of [icepim_folder; zip_path] ∪ disk s
         /\ (CHECK_IMAGES cfg = false -> icepim_folder = None /\ zip_path = None)
         /\ (join_nonempty rt -> icepim_folder <> Some [] /\ zip_path <> Some [])
     | Raise _ => True
     end.
Proof.
  unfold process_icepim, download_icepim_images. intros H. unfold_monad H.
  run_cases H; simplify_eq; (split; [reflexivity|]); try exact I;
    (split; [reflexivity|]); (split; [|split]);
    try (rewrite !paths_of_cons_None, paths_of_nil; set_solver);
    try (intros ?; split; (reflexivity || discriminate));
    try (intros Hc; rewrite Hc in *; discriminate).
  - rewrite !paths_of_cons_Some, paths_of_nil. cbn [disk set_disk]. set_solver.
  - intros Hj. split; intros Hp; injection Hp as Hp; apply Hj in Hp; try exact Hp.
    + apply tmp_icepim_nonempty.
    + match goal with
      | E : last _ = Some _ |- _ =>
          apply last_In, List.filter_In in E as [_ E];
          apply andb_true_iff in E as [E _];
          apply (endswith_nonempty _ _ lit_zip_nonempty E)
      end.
Qed.

Lemma fetch_both_spec (row : gmap pystr (option pystr)) (idx : nat) (s s1 : State)
    (o : outcome ((pystr * AmazonData * option pystr)
                  * (IcepimData * option pystr * option pystr))) :
  fetch_both rt cfg world row idx s = (s1, o) ->
  report s1 = report s
  /\ match o with
     | Ok ((_, amazon_data, amazon_folder), (icepim_data, icepim_folder, zip_path)) =>
         amazon_data = parse_amazon cfg (world idx)
         /\ icepim_data = parse_icepim cfg (world idx)
         /\ disk s1 = paths_of [amazon_folder; icepim_folder; zip_path] ∪ disk s
         /\ (CHECK_IMAGES cfg = false ->
             amazon_folder = None /\ icepim_folder = None /\ zip_path = None)
         /\ (join_nonempty rt ->
             amazon_folder <> Some [] /\ icepim_folder <> Some [] /\ zip_path <> Some [])
     | Raise _ => True
     end.
Proof.
  unfold fetch_both. intros H.
  destruct (process_amazon rt cfg world row idx s) as [sa oa] eqn:Ha.
  destruct (process_icepim rt cfg world row idx sa) as [si oi] eqn:Hi.
  apply process_amazon_spec in Ha as [Hra Ha].
  apply process_icepim_spec in Hi as [Hri Hi].
  destruct oa as [[[asin ad] af]|e]; destruct oi as [[[idata ifo] zp]|e']; simplify_eq;
    (split; [congruence|]); try exact I.
  destruct Ha as (-> & Hda & Hca & Hja). destruct Hi as (-> & Hdi & Hci & Hji).
  split; [reflexivity|]. split; [reflexivity|]. split; [|split].
  - rewrite Hdi, Hda. destruct af, ifo, zp;
      rewrite ?paths_of_cons_Some, ?paths_of_cons_None, ?paths_of_nil; set_solver.
  - intros Hc. destruct (Hci Hc). auto.
  - intros Hj. destruct (Hji Hj). auto.
Qed.

Lemma check_images_spec (w : ItemWorld) (asin : pystr)
    (amazon_folder icepim_folder zip_path : option pystr) (s s1 : State)
    (o : outcome (bool * pystr)) :
  check_images rt cfg w asin amazon_folder icepim_folder zip_path s = (s1, o) ->
  report s1 = report s /\ disk s1 = disk s
  /\ (CHECK_IMAGES cfg = false -> o = Ok (true, lit "Image check disabled")).
Proof.
  unfold check_images. intros H. unfold_monad H.
  run_cases H; simplify_eq; repeat split; try discriminate; try reflexivity.
Qed.

(** What one turn of the loop does: an exception leaves the report as it
    was; otherwise the row of the item is appended and the folders and the
    archive that the fetch returned are removed. *)
Lemma process_row_spec (idx : nat) (row : gmap pystr (option pystr)) (s s' : State)
    (o : outcome unit) :
  process_row rt cfg world idx row s = (s', o) ->
  match o with
  | Raise _ => report s' = report s
  | Ok _ =>
      exists s1 asin0 asin amazon_folder icepim_folder zip_path images,
        fetch_both rt cfg world row idx s
        = (s1, Ok ((asin0, parse_amazon cfg (world idx), amazon_folder),
                   (parse_icepim cfg (world idx), icepim_folder, zip_path)))
        /\ report s'
           = report s ++ [make_row rt asin (parse_amazon cfg (world idx))
                            (parse_icepim cfg (world idx)) images]
        /\ (CHECK_IMAGES cfg = false -> images = (true, lit "Image check disabled"))
        /\ (join_nonempty rt ->
            disk s' = disk s1 ∖ paths_of [amazon_folder; icepim_folder; zip_path])
  end.
Proof.
  unfold process_row. intros H. unfold_monad H.
  run_cases H; simplify_eq;
    try match goal with
    | E : fetch_both _ _ _ _ _ _ = _ |- _ =>
        let Hr := fresh "Hrf" in let Hf := fresh "Hf" in
        pose proof (fetch_both_spec _ _ _ _ _ E) as [Hr Hf]
    end;
    repeat match goal with
    | E : remove_if_exists _ _ = (_, _) |- _ =>
        apply remove_if_exists_spec in E as (? & ? & ?)
    | E : check_images _ _ _ _ _ _ _ _ = (_, _) |- _ =>
        apply check_images_spec in E as (? & ? & ?)
    end;
    simplify_eq; try congruence.
  all: destruct Hf as (-> & -> & Hdisk & Hoff & Hne).
  all: eexists _, _, _, _, _, _, _; split; [reflexivity|].
  all: split;
         [cbn [report set_progress]; cbn [report add_row add_export] in *;
          repeat match goal with
                 | H : report ?x = _ |- context [report ?x] => progress (rewrite H)
                 end; reflexivity|].
  all: split;
         [intros Hc;
          match goal with
          | H : CHECK_IMAGES cfg = false -> Ok _ = Ok _ |- _ =>
              specialize (H Hc); congruence
          end|].
  all: intros Hj; destruct (Hne Hj) as (N1 & N2 & N3).
  all: cbn [disk set_progress]; cbn [disk add_row add_export] in *.
  all: repeat match goal with
       | H : ?p <> Some [] -> _, N : ?p <> Some [] |- _ => specialize (H N)
       end.
  all: repeat match goal with
       | H : disk ?x = _ |- context [disk ?x] => progress (rewrite H)
       end.
  all: apply paths_of_difference.
Qed.

(** A property of the rows that holds of every row the loop can append holds
    of the whole report. *)
Lemma main_loop_report (P : ReportRow -> Prop) :
  (forall idx asin images,
     (CHECK_IMAGES cfg = false -> images = (true, lit "Image check disabled")) ->
     P (make_row rt asin (parse_amazon cfg (world idx)) (parse_icepim cfg (world idx))
          images)) ->
  forall rows idx s,
    Forall P (report s) -> Forall P (report (main_loop rt cfg world idx rows s).1).
Proof.
  intros HP rows. induction rows as [|row rest IH]; intros idx s Hs; [exact Hs|].
  cbn [main_loop]. unfold mbind, M_bind.
  destruct (process_row rt cfg world idx row s) as [s1 [[]|e]] eqn:E;
    apply process_row_spec in E.
  - destruct E as (s0 & asin0 & asin & af & ifo & zp & images & _ & Hr & Hi & _).
    apply IH. rewrite Hr. apply Forall_app. split; [exact Hs|].
    constructor; [|constructor]. apply HP, Hi.
  - cbn [fst]. rewrite E. exact Hs.
Qed.

(** A run that ends without an exception appended one row per row of the
    work list. *)
Lemma main_loop_ok_length (rows : list (gmap pystr (option pystr))) (idx : nat)
    (s s' : State) :
  main_loop rt cfg world idx rows s = (s', Ok tt) ->
  length (report s') = (length (report s) + length rows)%nat.
Proof.
  revert idx s. induction rows as [|row rest IH]; intros idx s H.
  - cbn in H. injection H as <-. cbn. lia.
  - cbn [main_loop] in H. unfold mbind, M_bind in H.
    destruct (process_row rt cfg world idx row s) as [s1 [[]|e]] eqn:E; [|discriminate].
    apply process_row_spec in E
      as (s0 & asin0 & asin & af & ifo & zp & images & _ & Hr & _).
    apply IH in H. rewrite H, Hr, length_app. cbn. lia.
Qed.

Lemma parse_amazon_no_videos (w : ItemWorld) :
  CHECK_VIDEOS cfg = false -> a_videos_durations (parse_amazon cfg w) = [].
Proof.
  intros Hv. unfold parse_amazon, amazon_degraded. rewrite Hv.
  destruct (w_amazon_page w) as [page|e]; [|reflexivity].
  destruct (page_loaded (first_read page)); [reflexivity|].
  destruct (page_loaded (second_read page)); reflexivity.
Qed.

Lemma parse_icepim_no_videos (w : ItemWorld) :
  CHECK_VIDEOS cfg = false -> default [] (snd <$> i_videos (parse_icepim cfg w)) = [].
Proof.
  intros Hv. unfold parse_icepim, icepim_error. rewrite Hv.
  destruct (w_icepim_page w) as [[status|status title_input bullets]|e]; reflexivity.
Qed.
Transparent lit.
End ProgramFacts.

Lemma posix_join_nonempty (a b : pystr) : b <> [] -> posix_join a b <> [].
Proof.
  intros Hb. unfold posix_join.
  destruct (bool_decide (head b = Some 47)); [exact Hb|].
  destruct (bool_decide (a = []) || endswith a [47]).
  - destruct a; [exact Hb | discriminate].
  - destruct a; discriminate.
Qed.

(** ** Claims about the batch *)

(** C7: evaluation of the loop at the failing input.  When the navigation of
    the marketplace session raises on the first of two rows, the exception
    leaves [process_amazon], ends the loop, and the report holds no row at
    all; the same failure on the PIM side is caught by [parse_icepim] and
    gives a degraded row (status ERROR), after which the loop goes on.  A
    line of the work list that lacks its second field ends the loop in the
    same way. *)
Theorem C7_navigation_failure_aborts_batch :
  (run ascii_runtime text_only (first_then_good unreachable_item) [demo_row; demo_row]).2
    = Raise WebDriverException
  /\ report (run ascii_runtime text_only (first_then_good unreachable_item)
               [demo_row; demo_row]).1 = []
  /\ (run ascii_runtime text_only (first_then_good pim_unreachable_item)
        [demo_row; demo_row]).2 = Ok tt
  /\ List.map (fun r => (r_title r, r_icepim_status r))
       (report (run ascii_runtime text_only (first_then_good pim_unreachable_item)
                  [demo_row; demo_row]).1)
     = [(lit "DIFFER", lit "ERROR"); (lit "MATCH", lit "Approved")]
  /\ (run ascii_runtime text_only (fun _ => good_item) [short_row; demo_row]).2
     = Raise AttributeError
  /\ report (run ascii_runtime text_only (fun _ => good_item) [short_row; demo_row]).1 = [].
Proof. repeat split; vm_compute; reflexivity. Qed.

(** C8, counterexample: the page reload of [download_amazon_images] times
    out on the first row after the three artifacts were written; the loop
    ends with the exception and the marketplace folder, the PIM folder and
    the archive stay on disk. *)
Lemma C8_artifacts_left_after_exception :
  (run ascii_runtime all_checks (first_then_good reload_timeout_item) [demo_row; demo_row]).2
    = Raise WebDriverException
  /\ elements (disk (run ascii_runtime all_checks (first_then_good reload_timeout_item)
                       [demo_row; demo_row]).1)
     = [lit "/work/downloads/gallery.zip"; lit "/work/tmp_amazon_B000000001";
        lit "/work/tmp_icepim_B000000001"].
Proof. split; vm_compute; reflexivity. Qed.

(** C8 (amended): when the processing of an item ends without an exception,
    whatever its verdicts, the marketplace image folder, the PIM gallery
    folder and the archive that the fetch left on disk are gone before the
    loop goes on, and nothing is on disk that was not there before the
    item. *)
Theorem C8_cleanup_after_completed_item (rt : Runtime) (cfg : Config)
    (world : nat -> ItemWorld) (idx : nat) (row : gmap pystr (option pystr))
    (s s' : State) :
  join_nonempty rt ->
  process_row rt cfg world idx row s = (s', Ok tt) ->
  exists s1 asin amazon_data amazon_folder icepim_data icepim_folder zip_path,
    fetch_both rt cfg world row idx s
    = (s1, Ok ((asin, amazon_data, amazon_folder), (icepim_data, icepim_folder, zip_path)))
    /\ disk s1 = paths_of [amazon_folder; icepim_folder; zip_path] ∪ disk s
    /\ (forall p, p ∈ paths_of [amazon_folder; icepim_folder; zip_path] -> p ∉ disk s')
    /\ disk s' ⊆ disk s.
Proof.
  intros Hj H. apply process_row_spec in H
    as (s1 & asin0 & asin & af & ifo & zp & images & Hf & _ & _ & Hd).
  specialize (Hd Hj).
  destruct (fetch_both_spec rt cfg world row idx s s1 _ Hf) as (_ & _ & _ & Hd1 & _).
  exists s1, asin0, (parse_amazon cfg (world idx)), af, (parse_icepim cfg (world idx)), ifo, zp.
  split; [exact Hf|]. split; [exact Hd1|]. rewrite Hd, Hd1. split; set_solver.
Qed.

Lemma C8_cleanup_after_completed_item_witness :
  join_nonempty ascii_runtime
  /\ disk (process_row ascii_runtime all_checks (fun _ => good_item) 1 demo_row
             initial_state).1 ⊆ ∅.
Proof.
  split; [exact posix_join_nonempty|].
  destruct (process_row ascii_runtime all_checks (fun _ => good_item) 1 demo_row
              initial_state) as [s' o] eqn:E.
  assert (Ho : o = Ok tt).
  { change o with (s', o).2. rewrite <- E. vm_compute. reflexivity. }
  subst o.
  destruct (C8_cleanup_after_completed_item ascii_runtime all_checks (fun _ => good_item)
              1%nat demo_row initial_state s' posix_join_nonempty E)
    as (s1 & asin & ad & af & idata & ifo & zp & _ & _ & _ & Hsub).
  exact Hsub.
Defined.

(** C9, counterexample: a PIM duration list made of a sentinel only holds no
    duration that is not a sentinel, and the verdict is Warning, not Match. *)
Lemma C9_only_sentinels_is_warning :
  icepim_known_dur [lit "?:??"] = []
  /\ video_status (compare_videos ascii_runtime 0 [] 1 [lit "?:??"]) = lit "Warning".
Proof. split; vm_compute; reflexivity. Qed.

(** C9 (amended): whenever the PIM duration list is empty the video verdict
    is Match; when video checking is disabled both duration lists are empty
    and every row of the report reads Match; and the video cell of a row is
    always one of Warning, Match and Need upload, so no row carries a mark
    for a check that did not run. *)
Theorem C9_no_pim_durations (rt : Runtime) (cfg : Config) (world : nat -> ItemWorld)
    (rows : list (gmap pystr (option pystr))) :
  (forall amazon_v_count amazon_durations icepim_v_count,
     video_status (compare_videos rt amazon_v_count amazon_durations icepim_v_count [])
     = lit "Match")
  /\ (CHECK_VIDEOS cfg = false ->
      (forall w, a_videos_durations (parse_amazon cfg w) = []
                 /\ default [] (snd <$> i_videos (parse_icepim cfg w)) = [])
      /\ Forall (fun r => r_video r = lit "Match") (report (run rt cfg world rows).1))
  /\ Forall (fun r => r_video r = lit "Warning" \/ r_video r = lit "Match"
                      \/ r_video r = lit "Need upload")
       (report (run rt cfg world rows).1).
Proof.
  assert (Hempty : forall ac ad ic,
            video_status (compare_videos rt ac ad ic []) = lit "Match").
  { intros ac ad ic. unfold compare_videos. cbn [has_unknown_in_icepim existsb].
    rewrite bool_decide_eq_true_2; [reflexivity|].
    unfold icepim_known_dur. rewrite filter_nil. cbn. set_solver. }
  split; [exact Hempty|]. split.
  - intros Hv. split.
    + intros w. split; [apply parse_amazon_no_videos | apply parse_icepim_no_videos];
        exact Hv.
    + unfold run. apply main_loop_report; [|constructor].
      intros idx asin images _. unfold make_row. cbn [r_video].
      rewrite (parse_icepim_no_videos cfg _ Hv). apply Hempty.
  - unfold run. apply main_loop_report; [|constructor].
    intros idx asin images _. unfold make_row. cbn [r_video].
    match goal with
    | |- context [compare_videos rt ?ac ?ad ?ic ?idur] =>
        pose proof (video_status_cases rt ac ic ad idur) as Hc
    end.
    cbv zeta in Hc.
    destruct Hc as [[_ H]|[(_ & _ & H)|(_ & _ & H & _)]]; rewrite H; auto.
Qed.

Lemma C9_no_pim_durations_witness :
  CHECK_VIDEOS text_only = false
  /\ Forall (fun r => r_video r = lit "Match")
       (report (run ascii_runtime text_only (fun _ => good_item) [demo_row; demo_row]).1).
Proof.
  split; [reflexivity|].
  destruct (C9_no_pim_durations ascii_runtime text_only (fun _ => good_item)
              [demo_row; demo_row]) as (_ & H & _).
  apply H. reflexivity.
Defined.

(** C10: when image checking is disabled, every row of the report has MATCH
    in its images cell and the detail text "Image check disabled"; the cell
    reads the same as in a run that compared the images and found them all
    equal. *)
Theorem C10_images_disabled (rt : Runtime) (cfg : Config) (world : nat -> ItemWorld)
    (rows : list (gmap pystr (option pystr))) :
  CHECK_IMAGES cfg = false ->
  Forall (fun r => r_images r = lit "MATCH"
                   /\ r_images_details r = lit "Image check disabled")
    (report (run rt cfg world rows).1)
  /\ List.map (fun r => (r_images r, r_images_details r))
       (report (run ascii_runtime all_checks (fun _ => good_item) [demo_row]).1)
     = [(lit "MATCH", lit "1 Amazon / 1 PIM, all MATCH")].
Proof.
  intros Hc. split.
  - unfold run. apply main_loop_report; [|constructor].
    intros idx asin images Hi. rewrite (Hi Hc). split; reflexivity.
  - vm_compute. reflexivity.
Qed.

Lemma C10_images_disabled_witness :
  CHECK_IMAGES text_only = false
  /\ Forall (fun r => r_images r = lit "MATCH"
                      /\ r_images_details r = lit "Image check disabled")
       (report (run ascii_runtime text_only (fun _ => good_item) [demo_row; demo_row]).1)
  /\ length (report (run ascii_runtime text_only (fun _ => good_item)
                       [demo_row; demo_row]).1) = 2%nat.
Proof.
  split; [reflexivity|]. split.
  - destruct (C10_images_disabled ascii_runtime text_only (fun _ => good_item)
                [demo_row; demo_row] eq_refl) as [H _].
    exact H.
  - vm_compute. reflexivity.
Defined.

(** * Further properties of the code *)

(** ** Decimal printing *)

Lemma digits_fuel_app (fuel : nat) (n : N) (acc : pystr) :
  digits_fuel fuel n acc = digits_fuel fuel n [] ++ acc.
Proof.
  revert n acc. induction fuel as [|fuel IH]; intros n acc; simpl; [reflexivity|].
  destruct (n <? 10); [reflexivity|].
  rewrite (IH _ (_ :: acc)), (IH _ [_]), <- app_assoc. reflexivity.
Qed.

Lemma int_of_str_snoc (s : pystr) (c : N) :
  int_of_str (s ++ [c]) = 10 * int_of_str s + (c - 48).
Proof. unfold int_of_str. rewrite fold_left_app. reflexivity. Qed.

Lemma int_of_digits_fuel (fuel : nat) (n : N) :
  n < 2 ^ N.of_nat fuel -> int_of_str (digits_fuel fuel n []) = n.
Proof.
  revert n. induction fuel as [|fuel IH]; intros n Hn.
  - simpl in Hn. assert (n = 0) as -> by lia. reflexivity.
  - cbn [digits_fuel]. destruct (N.ltb_spec n 10) as [Hlt|Hge].
    + unfold int_of_str. cbn [fold_left]. rewrite N.mod_small by exact Hlt.
      rewrite N.mul_0_r, N.add_0_l, N.add_comm. apply N.add_sub.
    + rewrite digits_fuel_app, int_of_str_snoc, IH.
      * rewrite (N.add_comm 48), N.add_sub. symmetry. apply N.div_mod. discriminate.
      * rewrite Nat2N.inj_succ, N.pow_succ_r' in Hn.
        apply N.Div0.div_lt_upper_bound. lia.
Qed.

Lemma int_of_str_of_N (n : N) : int_of_str (str_of_N n) = n.
Proof.
  unfold str_of_N. apply int_of_digits_fuel.
  rewrite Nat2N.inj_succ, N2Nat.id.
  destruct (N.eq_dec n 0) as [->|Hn]; [reflexivity|].
  apply N.log2_spec. lia.
Qed.

Lemma str_of_nat_inj (m n : nat) : str_of_nat m = str_of_nat n -> m = n.
Proof.
  unfold str_of_nat. intros H. apply (f_equal int_of_str) in H.
  rewrite !int_of_str_of_N in H. lia.
Qed.

Lemma digits_fuel_digits (fuel : nat) (n : N) (acc : pystr) :
  Forall is_digit acc -> Forall is_digit (digits_fuel fuel n acc).
Proof.
  revert n acc. induction fuel as [|fuel IH]; intros n acc Hacc; simpl; [exact Hacc|].
  assert (Hd : is_digit (48 + n mod 10)).
  { unfold is_digit. pose proof (N.mod_upper_bound n 10 ltac:(discriminate)) as Hm.
    revert Hm. generalize (n mod 10). intros. lia. }
  destruct (n <? 10); [constructor; assumption|].
  apply IH. constructor; assumption.
Qed.

Lemma str_of_nat_digits (n : nat) : Forall is_digit (str_of_nat n).
Proof. apply digits_fuel_digits. constructor. Qed.

Lemma str_of_nat_nonempty (n : nat) : str_of_nat n <> [].
Proof.
  unfold str_of_nat, str_of_N. cbn [digits_fuel].
  destruct (_ <? 10); [discriminate|].
  rewrite digits_fuel_app. intros H. apply app_eq_nil in H as [_ H]. discriminate H.
Qed.

Lemma int_of_pad2 (n : nat) : int_of_str (pad2 n) = N.of_nat n.
Proof.
  unfold pad2. destruct (n <? 10)%nat.
  - change (int_of_str (48 :: str_of_nat n)) with (int_of_str (str_of_nat n)).
    apply int_of_str_of_N.
  - apply int_of_str_of_N.
Qed.

(** A string is cut in one way at a character that its first part lacks. *)
Lemma app_cons_unique (c : N) (x x' y y' : pystr) :
  c ∉ x -> c ∉ x' -> x ++ c :: y = x' ++ c :: y' -> x = x' /\ y = y'.
Proof.
  revert x'. induction x as [|a x IH]; intros [|a' x'] Hx Hx' H; simpl in H.
  - injection H as ->. auto.
  - injection H as -> _. exfalso. apply Hx'. left.
  - injection H as -> _. exfalso. apply Hx. left.
  - injection H as -> H. destruct (IH x') as [-> ->]; auto.
    + intros Hin. apply Hx. right. exact Hin.
    + intros Hin. apply Hx'. right. exact Hin.
Qed.

Lemma colon_not_in_digits (n : nat) : 58 ∉ str_of_nat n.
Proof.
  intros Hin. pose proof (str_of_nat_digits n) as Hd.
  rewrite Forall_forall in Hd. specialize (Hd _ Hin). unfold is_digit in Hd. lia.
Qed.

(** ** The durations read from the marketplace page *)

Lemma format_duration_inj (s t : nat) : format_duration s = format_duration t -> s = t.
Proof.
  unfold format_duration. intros H.
  apply app_cons_unique in H as [Hm Hr]; try apply colon_not_in_digits.
  apply str_of_nat_inj in Hm.
  apply (f_equal int_of_str) in Hr. rewrite !int_of_pad2 in Hr.
  apply Nat2N.inj in Hr.
  rewrite (Nat.div_mod_eq s 60), (Nat.div_mod_eq t 60). congruence.
Qed.

Lemma format_duration_not_sentinel (s : nat) : format_duration s ∉ sentinels.
Proof.
  unfold format_duration. intros Hin.
  pose proof (str_of_nat_digits (s / 60)) as Hd.
  pose proof (str_of_nat_nonempty (s / 60)) as Hne.
  destruct (str_of_nat (s / 60)) as [|c rest]; [congruence|].
  apply Forall_cons in Hd as [Hc _]. unfold is_digit in Hc.
  apply list_elem_of_In in Hin. simpl in Hin.
  destruct Hin as [Hin|[Hin|[]]]; vm_compute in Hin; injection Hin as Hin;
    subst c; lia.
Qed.

(** X1: two numbers of seconds are printed as the same duration text only
    when they are equal, and a printed duration is never one of the two
    sentinel texts. *)
Theorem X1_format_duration_faithful (s t : nat) :
  (format_duration s = format_duration t <-> s = t)
  /\ format_duration s ∉ sentinels.
Proof.
  split; [split; [apply format_duration_inj | intros ->; reflexivity]|].
  apply format_duration_not_sentinel.
Qed.

(** ** Distinct elements in order of first occurrence *)

Lemma elem_of_fromkeys (seen l : list pystr) (x : pystr) :
  x ∈ fromkeys seen l <-> x ∈ l /\ x ∉ seen.
Proof.
  revert seen. induction l as [|y l IH]; intros seen; simpl.
  - split; [intros H; inversion H | intros [H _]; inversion H].
  - case_bool_decide as Hy.
    + rewrite IH. split.
      * intros [H1 H2]. split; [right; exact H1 | exact H2].
      * intros [H1 H2]. split; [|exact H2].
        apply elem_of_cons in H1 as [->|H1]; [contradiction | exact H1].
    + rewrite elem_of_cons, IH. split.
      * intros [->|[H1 H2]]; [split; [left | exact Hy]|].
        split; [right; exact H1|]. intros H. apply H2. right. exact H.
      * intros [H1 H2]. apply elem_of_cons in H1 as [->|H1]; [left; reflexivity|].
        destruct (decide (x = y)) as [->|Hne]; [left; reflexivity|].
        right. split; [exact H1|]. intros H. apply elem_of_cons in H as [?|?]; auto.
Qed.

Lemma NoDup_fromkeys (seen l : list pystr) : NoDup (fromkeys seen l).
Proof.
  revert seen. induction l as [|y l IH]; intros seen; simpl; [constructor|].
  case_bool_decide as Hy; [apply IH|].
  apply NoDup_cons. split; [|apply IH].
  rewrite elem_of_fromkeys. intros [_ H]. apply H. left.
Qed.

Lemma fromkeys_ext (seen seen' l : list pystr) :
  (forall x, x ∈ seen <-> x ∈ seen') -> fromkeys seen l = fromkeys seen' l.
Proof.
  revert seen seen'. induction l as [|y l IH]; intros seen seen' H; simpl; [reflexivity|].
  rewrite (bool_decide_ext (y ∈ seen) (y ∈ seen') (H y)).
  destruct (bool_decide (y ∈ seen')); [apply IH, H|].
  f_equal. apply IH. intros x. rewrite !elem_of_cons, H. reflexivity.
Qed.

Lemma fromkeys_NoDup_id (seen l : list pystr) :
  NoDup l -> (forall x, x ∈ l -> x ∉ seen) -> fromkeys seen l = l.
Proof.
  revert seen. induction l as [|y l IH]; intros seen Hnd Hs; simpl; [reflexivity|].
  apply NoDup_cons in Hnd as [Hy Hnd].
  rewrite bool_decide_eq_false_2 by (apply Hs; left).
  f_equal. apply IH; [exact Hnd|].
  intros x Hx Hin. apply elem_of_cons in Hin as [->|Hin]; [contradiction|].
  apply (Hs x); [right; exact Hx | exact Hin].
Qed.

Lemma NoDup_take_of {A : Type} (n : nat) (l : list A) : NoDup l -> NoDup (take n l).
Proof.
  intros H. rewrite <- (take_drop n l) in H. apply NoDup_app in H as [H _]. exact H.
Qed.

Lemma unique_loop_zero (unique durations : list pystr) :
  unique_loop 0 unique durations = unique ++ fromkeys unique durations.
Proof.
  revert unique. induction durations as [|d rest IH]; intros unique; simpl.
  - rewrite app_nil_r. reflexivity.
  - case_bool_decide as Hd.
    + destruct unique as [|u unique]; [inversion Hd|]. cbn [length Nat.eqb]. apply IH.
    + rewrite length_app, Nat.add_comm. cbn [length Nat.add Nat.eqb].
      rewrite IH, <- app_assoc. cbn [app]. do 2 f_equal.
      apply fromkeys_ext. intros x. rewrite elem_of_app, !elem_of_cons, elem_of_nil. tauto.
Qed.

Lemma unique_loop_take (n : nat) (unique durations : list pystr) :
  (length unique < n)%nat ->
  unique_loop n unique durations = take n (unique ++ fromkeys unique durations).
Proof.
  revert unique. induction durations as [|d rest IH]; intros unique Hlen; simpl.
  - rewrite app_nil_r, take_ge by lia. reflexivity.
  - case_bool_decide as Hd.
    + rewrite (proj2 (Nat.eqb_neq _ _)) by lia. apply IH, Hlen.
    + rewrite length_app. cbn [length].
      destruct (Nat.eqb_spec (length unique + 1) n) as [Heq|Hne].
      * replace (unique ++ d :: fromkeys (d :: unique) rest)
          with ((unique ++ [d]) ++ fromkeys (d :: unique) rest)
          by (rewrite <- app_assoc; reflexivity).
        rewrite take_app_length' by (rewrite length_app; cbn; lia). reflexivity.
      * rewrite IH by (rewrite length_app; cbn; lia).
        rewrite <- app_assoc. cbn [app]. do 3 f_equal.
        apply fromkeys_ext. intros x. rewrite elem_of_app, !elem_of_cons, elem_of_nil. tauto.
Qed.

(** X2: the loop with its early exit gives the first [estimated_count]
    distinct durations in the order of the page when the page holds that
    many distinct ones, and otherwise the first [estimated_count] listed
    durations, repeats included; the result never has more than
    [estimated_count] entries and holds only durations of the page. *)
Theorem X2_final_durations (estimated_count : nat) (seconds : list nat) :
  let all_durations := List.map format_duration seconds in
  let distinct := fromkeys [] all_durations in
  let final := final_durations estimated_count seconds in
  final = (if (estimated_count <=? length distinct)%nat
           then take estimated_count distinct
           else take estimated_count all_durations)
  /\ (length final <= estimated_count)%nat
  /\ ((estimated_count <= length distinct)%nat ->
      NoDup final /\ length final = estimated_count)
  /\ (forall d, d ∈ final -> exists s, In s seconds /\ d = format_duration s).
Proof.
  cbv zeta.
  assert (Heq : final_durations estimated_count seconds
                = if (estimated_count <=? length (fromkeys [] (List.map format_duration seconds)))%nat
                  then take estimated_count (fromkeys [] (List.map format_duration seconds))
                  else take estimated_count (List.map format_duration seconds)).
  { unfold final_durations. destruct estimated_count as [|n].
    - rewrite unique_loop_zero. reflexivity.
    - rewrite unique_loop_take by (cbn; lia). cbn [app].
      rewrite length_take.
      destruct (Nat.leb_spec (S n) (length (fromkeys [] (List.map format_duration seconds))))
        as [Hle|Hgt].
      + rewrite (proj2 (Nat.leb_le _ _)) by lia. rewrite take_take, Nat.min_id. reflexivity.
      + rewrite (proj2 (Nat.leb_gt _ _)) by lia. reflexivity. }
  split; [exact Heq|]. rewrite Heq. split; [|split].
  - destruct (_ <=? _)%nat; rewrite length_take; lia.
  - intros Hle. rewrite (proj2 (Nat.leb_le _ _) Hle). split.
    + apply NoDup_take_of, NoDup_fromkeys.
    + rewrite length_take. lia.
  - intros d Hd.
    assert (Hin : d ∈ List.map format_duration seconds).
    { destruct (_ <=? _)%nat; apply elem_of_take in Hd as (i & Hd & _);
        apply list_elem_of_lookup_2 in Hd; [|exact Hd].
      apply elem_of_fromkeys in Hd as [Hd _]. exact Hd. }
    apply list_elem_of_In, in_map_iff in Hin as (s & <- & Hs). eauto.
Qed.

Lemma X2_final_durations_witness :
  (2 <= length (fromkeys [] (List.map format_duration [90; 90; 125; 61]%nat)))%nat
  /\ final_durations 2%nat [90; 90; 125; 61]%nat = [lit "1:30"; lit "2:05"]
  /\ final_durations 3%nat [90; 90; 125]%nat = [lit "1:30"; lit "1:30"; lit "2:05"].
Proof.
  assert (Hle : (2 <= length (fromkeys [] (List.map format_duration [90; 90; 125; 61]%nat)))%nat).
  { vm_compute. lia. }
  split; [exact Hle|].
  destruct (X2_final_durations 2%nat [90; 90; 125; 61]%nat)%nat as (Heq & _ & H & _).
  split; [|vm_compute; reflexivity].
  destruct (H Hle) as [_ _]. rewrite Heq. vm_compute. reflexivity.
Defined.

(** ** Snapshots *)

(** X3: a snapshot always has at least one bullet, in every outcome of the
    two parsers; the bullets of the PIM snapshot hold no text twice, and
    each of them is an accepted bullet of the page or the placeholder. *)
Theorem X3_snapshot_bullets (cfg : Config) (w : ItemWorld) :
  a_bullets (parse_amazon cfg w) <> []
  /\ i_bullets (parse_icepim cfg w) <> []
  /\ NoDup (i_bullets (parse_icepim cfg w))
  /\ (forall b, b ∈ i_bullets (parse_icepim cfg w) ->
      b = NOT_FOUND
      \/ exists status title_input bullets,
           w_icepim_page w = Ok (LangBlock status title_input bullets) /\ b ∈ bullets).
Proof.
  assert (Hone : NoDup [NOT_FOUND]) by (apply NoDup_singleton).
  split; [|split; [|split]].
  - unfold parse_amazon, amazon_degraded, page_loaded.
    destruct (w_amazon_page w) as [page|e]; [|discriminate].
    destruct (title_tag (first_read page)), (page_bullets (first_read page)) as [|? [|? [|? ?]]] eqn:E1;
      cbn; try discriminate;
      destruct (CHECK_VIDEOS cfg); try destruct (w_amazon_videos w) as [[? ?]|?];
      cbn; try rewrite E1; try discriminate;
      destruct (title_tag (second_read page)),
        (page_bullets (second_read page)) as [|? [|? [|? ?]]] eqn:E2;
      cbn; try rewrite E2; try discriminate;
      try destruct (w_amazon_videos w) as [[? ?]|?]; cbn; try rewrite E2; discriminate.
  - unfold parse_icepim, icepim_error.
    destruct (w_icepim_page w) as [[status|status title_input bullets]|e]; try discriminate.
    destruct (CHECK_VIDEOS cfg); [destruct (get_icepim_video_durations_by_modal w) as [[? ?]|?]|];
      cbn; try discriminate; destruct (fromkeys [] bullets); discriminate.
  - unfold parse_icepim, icepim_error.
    destruct (w_icepim_page w) as [[status|status title_input bullets]|e]; try exact Hone.
    pose proof (NoDup_fromkeys [] bullets) as Hnd.
    destruct (CHECK_VIDEOS cfg); [destruct (get_icepim_video_durations_by_modal w) as [[? ?]|?]|];
      cbn; try exact Hone; destruct (fromkeys [] bullets); try exact Hone; exact Hnd.
  - intros b. unfold parse_icepim, icepim_error.
    destruct (w_icepim_page w) as [[status|status title_input bullets]|e];
      try (cbn; intros Hb; apply list_elem_of_singleton in Hb; auto; fail).
    assert (Hk : forall x, x ∈ fromkeys [] bullets -> x ∈ bullets).
    { intros x Hx. apply elem_of_fromkeys in Hx as [Hx _]. exact Hx. }
    destruct (CHECK_VIDEOS cfg); [destruct (get_icepim_video_durations_by_modal w) as [[? ?]|?]|];
      cbn; try (intros Hb; apply list_elem_of_singleton in Hb; auto; fail);
      destruct (fromkeys [] bullets) as [|k ks] eqn:Ek;
      try (intros Hb; apply list_elem_of_singleton in Hb; auto; fail);
      intros Hb; right; exists status, title_input, bullets; split; auto.
Qed.

(** ** The product identifier *)

Lemma asin_at_head (s : pystr) :
  bool_decide (take 4 s = lit "/dp/") && (length (take 10 (drop 4 s)) =? 10)%nat
    && forallb is_asin_char (take 10 (drop 4 s)) = true
  <-> exists post,
        s = lit "/dp/" ++ take 10 (drop 4 s) ++ post
        /\ length (take 10 (drop 4 s)) = 10%nat
        /\ forallb is_asin_char (take 10 (drop 4 s)) = true.
Proof.
  rewrite !andb_true_iff, bool_decide_eq_true, Nat.eqb_eq. split.
  - intros [[H4 H10] Hc]. exists (drop 10 (drop 4 s)).
    rewrite take_drop, <- H4, take_drop. auto.
  - intros (post & Hs & H10 & Hc). repeat split; try assumption.
    rewrite Hs at 1. reflexivity.
Qed.

Lemma asin_at_decomposed (a post : pystr) :
  length a = 10%nat ->
  take 10 (drop 4 (lit "/dp/" ++ a ++ post)) = a.
Proof.
  intros Ha. change (drop 4 (lit "/dp/" ++ a ++ post)) with (a ++ post).
  rewrite take_app_length'; [reflexivity | symmetry; exact Ha].
Qed.

Lemma search_asin_spec (s : pystr) :
  (forall a, search_asin s = Some a ->
     length a = 10%nat /\ forallb is_asin_char a = true
     /\ exists pre post, s = pre ++ lit "/dp/" ++ a ++ post)
  /\ (search_asin s = None <->
      forall pre a post, s = pre ++ lit "/dp/" ++ a ++ post -> length a = 10%nat ->
                         forallb is_asin_char a = false).
Proof.
  induction s as [|c s [IHsome IHnone]].
  - split; [discriminate|]. split; [|reflexivity].
    intros _ pre a post H _. destruct pre; discriminate H.
  - cbn [search_asin].
    destruct (bool_decide (take 4 (c :: s) = lit "/dp/")
              && (length (take 10 (drop 4 (c :: s))) =? 10)%nat
              && forallb is_asin_char (take 10 (drop 4 (c :: s)))) eqn:Hat.
    + apply asin_at_head in Hat as (post & Hs & H10 & Hc). split.
      * intros a Ha. injection Ha as <-. repeat split; try assumption.
        exists [], post. exact Hs.
      * split; [discriminate|]. intros H.
        specialize (H [] _ post Hs H10). congruence.
    + split.
      * intros a Ha. destruct (IHsome a Ha) as (H10 & Hc & pre & post & ->).
        repeat split; try assumption. exists (c :: pre), post. reflexivity.
      * rewrite IHnone. split.
        -- intros H pre a post Hs H10. destruct pre as [|c' pre].
           ++ destruct (forallb is_asin_char a) eqn:Hc; [|reflexivity].
              exfalso. apply not_true_iff_false in Hat. apply Hat.
              apply asin_at_head. rewrite Hs. cbn [app] in *.
              rewrite (asin_at_decomposed a post H10). eauto.
           ++ injection Hs as -> ->. eapply H; eauto.
        -- intros H pre a post -> H10. apply (H (c :: pre) a post); auto.
Qed.

(** X4: the identifier that the search returns has ten characters, all of
    them capital letters or digits, and stands in the text right after
    "/dp/"; the search returns nothing exactly when the text holds no such
    occurrence. *)
Theorem X4_search_asin (s : pystr) :
  (forall a, search_asin s = Some a ->
     length a = 10%nat /\ forallb is_asin_char a = true
     /\ exists pre post, s = pre ++ lit "/dp/" ++ a ++ post)
  /\ (search_asin s = None <->
      forall pre a post, s = pre ++ lit "/dp/" ++ a ++ post -> length a = 10%nat ->
                         forallb is_asin_char a = false).
Proof. exact (search_asin_spec s). Qed.

(** X5: a row whose locator holds no identifier is named [unknown_<idx>],
    two such rows of a run never get the same name, and the name is never
    taken for an identifier found in a locator. *)
Theorem X5_row_asin_placeholder (idx idx' : nat) (row row' : gmap pystr (option pystr))
    (url url' : pystr) :
  row_get row (lit "amazon_url") = Some url -> search_asin url = None ->
  row_get row' (lit "amazon_url") = Some url' ->
  row_asin idx row = lit "unknown_" ++ str_of_nat idx
  /\ (search_asin url' = None -> row_asin idx row = row_asin idx' row' -> idx = idx')
  /\ (forall a, search_asin url' = Some a -> row_asin idx' row' = a /\ row_asin idx row <> a).
Proof.
  intros Hrow Hnone Hrow'. unfold row_asin. rewrite Hrow, Hrow'.
  cbn [from_option id]. rewrite Hnone. cbn [from_option id].
  split; [reflexivity|]. split.
  - intros -> H. cbn [from_option id] in H. apply app_inv_head in H.
    apply str_of_nat_inj. exact H.
  - intros a Ha. rewrite Ha. cbn [from_option id]. split; [reflexivity|].
    intros <-. destruct (search_asin_spec url') as [Hs _].
    destruct (Hs _ Ha) as (_ & Hc & _). vm_compute in Hc. discriminate Hc.
Qed.

Lemma X5_row_asin_placeholder_witness :
  row_get (row_of (lit "https://www.amazon.de/gp/x") (lit "u")) (lit "amazon_url")
    = Some (lit "https://www.amazon.de/gp/x")
  /\ row_asin 7 (row_of (lit "https://www.amazon.de/gp/x") (lit "u")) = lit "unknown_7".
Proof.
  split; [reflexivity|].
  destruct (X5_row_asin_placeholder 7 8 (row_of (lit "https://www.amazon.de/gp/x") (lit "u"))
              demo_row (lit "https://www.amazon.de/gp/x")
              (lit "https://www.amazon.de/dp/B000000001?th=1")) as [H _].
  - reflexivity.
  - vm_compute. reflexivity.
  - reflexivity.
  - rewrite H. reflexivity.
Defined.

(** ** File names *)

Lemma rfind_from_none (P : N -> bool) (s : pystr) (i last : Z) :
  forallb (fun c => negb (P c)) s = true -> rfind_from P s i last = last.
Proof.
  revert i last. induction s as [|c s IH]; intros i last H; simpl in *; [reflexivity|].
  apply andb_true_iff in H as [Hc H]. apply negb_true_iff in Hc.
  rewrite Hc. apply IH, H.
Qed.

Lemma rfind_from_last (P : N -> bool) (pre : pystr) (c : N) (post : pystr) (i last : Z) :
  P c = true -> forallb (fun x => negb (P x)) post = true ->
  rfind_from P (pre ++ c :: post) i last = (i + Z.of_nat (length pre))%Z.
Proof.
  intros Hc Hpost. revert i last.
  induction pre as [|a pre IH]; intros i last.
  - cbn [app rfind_from length]. rewrite Hc, rfind_from_none by exact Hpost.
    cbn. lia.
  - cbn [app rfind_from]. rewrite IH. cbn [length]. lia.
Qed.

Lemma last_occurrence (P : N -> bool) (s : pystr) :
  forallb (fun c => negb (P c)) s = true
  \/ exists pre c post,
       s = pre ++ c :: post /\ P c = true /\ forallb (fun x => negb (P x)) post = true.
Proof.
  induction s as [|a s [IH|(pre & c & post & -> & Hc & Hpost)]].
  - left. reflexivity.
  - destruct (P a) eqn:Ha.
    + right. exists [], a, s. auto.
    + left. cbn. rewrite Ha. exact IH.
  - right. exists (a :: pre), c, post. auto.
Qed.

Lemma rfind_lower_bound (P : N -> bool) (s : pystr) : (-1 <= rfind P s)%Z.
Proof.
  unfold rfind. destruct (last_occurrence P s) as [H|(pre & c & post & -> & Hc & Hpost)].
  - rewrite rfind_from_none by exact H. lia.
  - rewrite rfind_from_last by assumption. lia.
Qed.

Lemma splitext_stem (rt : Runtime) (stem e : pystr) :
  (forall c, c ∈ stem ++ 46 :: e -> c ∉ path_seps rt) ->
  46 ∉ e -> (exists c, c ∈ stem /\ c <> 46) ->
  splitext rt (stem ++ 46 :: e) = (stem, 46 :: e).
Proof.
  intros Hsep Hdot (c & Hc & Hne). unfold splitext, rfind.
  rewrite (rfind_from_none (fun c => bool_decide (c ∈ path_seps rt))).
  - rewrite (rfind_from_last (N.eqb 46) stem 46 e); [|reflexivity|].
    + rewrite Z.add_0_l.
      replace (Z.of_nat (length stem) - (-1 + 1))%Z with (Z.of_nat (length stem)) by lia.
      change (Z.to_nat (-1 + 1)) with 0%nat.
      rewrite Nat2Z.id, drop_0, take_app_length, drop_app_length.
      rewrite (proj2 (Z.ltb_lt _ _)) by lia. cbn [andb].
      rewrite (proj2 (existsb_exists _ _)); [reflexivity|].
      exists c. split; [apply list_elem_of_In, Hc|].
      apply negb_true_iff, N.eqb_neq, Hne.
    + apply forallb_forall. intros x Hx. apply negb_true_iff, N.eqb_neq.
      intros <-. apply Hdot, list_elem_of_In, Hx.
  - apply forallb_forall. intros x Hx. apply negb_true_iff, bool_decide_eq_false_2.
    apply Hsep, list_elem_of_In, Hx.
Qed.

(** X6: the two parts that [splitext] returns always join to the name it was
    given; the extension is empty or starts with its only period; and a name
    [stem.ext] without separator, whose stem is not made of periods only and
    whose extension holds no further period, has the base key [stem]. *)
Theorem X6_splitext (rt : Runtime) (p stem e : pystr) :
  (splitext rt p).1 ++ (splitext rt p).2 = p
  /\ ((splitext rt p).2 = []
      \/ exists post, (splitext rt p).2 = 46 :: post /\ 46 ∉ post)
  /\ ((forall c, c ∈ stem ++ 46 :: e -> c ∉ path_seps rt) ->
      46 ∉ e -> (exists c, c ∈ stem /\ c <> 46) ->
      splitext rt (stem ++ 46 :: e) = (stem, 46 :: e)).
Proof.
  split; [|split].
  - unfold splitext. destruct (_ && _); cbn [fst snd].
    + apply take_drop.
    + apply app_nil_r.
  - unfold splitext.
    destruct ((rfind _ p <? rfind (N.eqb 46) p)%Z && _) eqn:Hcond; cbn [fst snd];
      [|left; reflexivity].
    right. apply andb_true_iff in Hcond as [Hlt _]. apply Z.ltb_lt in Hlt.
    pose proof (rfind_lower_bound (fun c => bool_decide (c ∈ path_seps rt)) p) as Hlo.
    unfold rfind in *.
    destruct (last_occurrence (N.eqb 46) p) as [H|(pre & c & post & -> & Hc & Hpost)].
    + rewrite (rfind_from_none (N.eqb 46)) in Hlt by exact H. lia.
    + rewrite (rfind_from_last (N.eqb 46)) by assumption.
      apply N.eqb_eq in Hc. subst c.
      rewrite Z.add_0_l, Nat2Z.id, drop_app_length.
      exists post. split; [reflexivity|].
      intros Hin. rewrite forallb_forall in Hpost.
      apply list_elem_of_In in Hin. specialize (Hpost _ Hin). discriminate Hpost.
  - apply splitext_stem.
Qed.

Lemma X6_splitext_witness :
  (forall c, c ∈ lit "B000000001.MAIN" ++ 46 :: lit "jpg" -> c ∉ path_seps ascii_runtime)
  /\ splitext ascii_runtime (lit "B000000001.MAIN.jpg") = (lit "B000000001.MAIN", lit ".jpg").
Proof.
  assert (Hsep : forall c, c ∈ lit "B000000001.MAIN" ++ 46 :: lit "jpg" ->
                   c ∉ path_seps ascii_runtime).
  { intros c Hc Hs. apply list_elem_of_singleton in Hs. subst c.
    apply list_elem_of_In in Hc. vm_compute in Hc.
    repeat (destruct Hc as [Hc|Hc]; [discriminate Hc|]). exact Hc. }
  split; [exact Hsep|].
  destruct (X6_splitext ascii_runtime [] (lit "B000000001.MAIN") (lit "jpg")) as (_ & _ & H).
  apply H.
  - exact Hsep.
  - intros Hin. apply list_elem_of_In in Hin. vm_compute in Hin.
    repeat (destruct Hin as [Hin|Hin]; [discriminate Hin|]). exact Hin.
  - exists 66. split; [left | discriminate].
Defined.

(** ** Stored credentials *)

Lemma split_once_first (sep : N) (a rest : pystr) :
  sep ∉ a -> split_once sep (a ++ sep :: rest) = [a; rest].
Proof.
  induction a as [|c a IH]; intros Ha; cbn [app split_once].
  - rewrite N.eqb_refl. reflexivity.
  - destruct (N.eqb_spec c sep) as [->|Hne]; [exfalso; apply Ha; left|].
    rewrite IH; [reflexivity|]. intros Hin. apply Ha. right. exact Hin.
Qed.

(** X7: with the key unchanged, loading what was saved gives the login and
    the password back when the login holds no bar; a login with a bar comes
    back cut at its first bar, the rest joined to the password; and without
    a credentials file, or when the content cannot be decrypted, both come
    back empty. *)
Theorem X7_credentials_round_trip (c : Cipher) (login password : pystr) :
  (forall d, unseal c (seal c d) = Ok d) ->
  (124 ∉ login ->
   load_credentials c (Some (save_credentials c login password)) = (login, password))
  /\ (forall a b, login = a ++ 124 :: b -> 124 ∉ a ->
      load_credentials c (Some (save_credentials c login password))
      = (a, b ++ 124 :: password))
  /\ load_credentials c None = ([], [])
  /\ (forall file e, unseal c file = Raise e -> load_credentials c (Some file) = ([], [])).
Proof.
  intros Hkey. unfold load_credentials, save_credentials. rewrite Hkey.
  split; [|split; [|split]].
  - intros Hl. rewrite split_once_first by exact Hl. reflexivity.
  - intros a b -> Ha. rewrite <- app_assoc. cbn [app].
    rewrite split_once_first by exact Ha. reflexivity.
  - reflexivity.
  - intros file e ->. reflexivity.
Qed.

Lemma X7_credentials_round_trip_witness :
  (forall d, unseal plain_cipher (seal plain_cipher d) = Ok d)
  /\ load_credentials plain_cipher
       (Some (save_credentials plain_cipher (lit "user") (lit "p|w")))
     = (lit "user", lit "p|w")
  /\ load_credentials plain_cipher
       (Some (save_credentials plain_cipher (lit "us|er") (lit "pw")))
     = (lit "us", lit "er|pw").
Proof.
  split; [reflexivity|].
  destruct (X7_credentials_round_trip plain_cipher (lit "user") (lit "p|w")) as [H _];
    [reflexivity|].
  split.
  - apply H. intros Hin. apply list_elem_of_In in Hin. vm_compute in Hin.
    repeat (destruct Hin as [Hin|Hin]; [discriminate Hin|]). exact Hin.
  - vm_compute. reflexivity.
Defined.

(** ** The names of the marketplace images *)

Lemma pad2_inj (i j : nat) : pad2 i = pad2 j -> i = j.
Proof.
  intros H. apply (f_equal int_of_str) in H. rewrite !int_of_pad2 in H. lia.
Qed.

Lemma pad2_digits (n : nat) : Forall is_digit (pad2 n).
Proof.
  unfold pad2. destruct (n <? 10)%nat; [constructor|]; try apply str_of_nat_digits.
  unfold is_digit. lia.
Qed.

Lemma endswith_app (s suffix : pystr) : endswith (s ++ suffix) suffix = true.
Proof.
  unfold endswith. apply bool_decide_eq_true_2.
  rewrite length_app, Nat.add_sub, drop_app_length. reflexivity.
Qed.

Lemma amazon_filename_jpg (asin : pystr) (i : nat) :
  amazon_filename asin i
  = (if (i =? 0)%nat then asin ++ lit ".MAIN" else asin ++ lit ".PT" ++ pad2 i) ++ lit ".jpg".
Proof.
  unfold amazon_filename. destruct (i =? 0)%nat; rewrite <- ?app_assoc; reflexivity.
Qed.

Lemma amazon_filename_split (rt : Runtime) (asin : pystr) (i : nat) :
  (forall c, c ∈ asin -> c ∉ path_seps rt) ->
  (forall c, c ∈ path_seps rt -> c = 47 \/ c = 92) ->
  splitext rt (amazon_filename asin i)
  = (if (i =? 0)%nat then asin ++ lit ".MAIN" else asin ++ lit ".PT" ++ pad2 i, lit ".jpg").
Proof.
  intros Hasin Hseps. rewrite amazon_filename_jpg.
  set (stem := if (i =? 0)%nat then _ else _).
  assert (Hstem : forall c, c ∈ stem -> c ∈ asin \/ In c (lit ".MAINPT") \/ is_digit c).
  { intros c. unfold stem. destruct (i =? 0)%nat.
    - rewrite elem_of_app. intros [H|H]; [auto|]. right. left.
      apply list_elem_of_In in H. cbn in *. tauto.
    - rewrite !elem_of_app. intros [H|[H|H]]; [auto| |].
      + right. left. apply list_elem_of_In in H. cbn in *. tauto.
      + right. right. pose proof (pad2_digits i) as Hd.
        rewrite Forall_forall in Hd. apply Hd, H. }
  change (lit ".jpg") with (46 :: lit "jpg"). apply splitext_stem.
  - intros c Hc Hs. pose proof (Hseps c Hs) as Hv.
    apply elem_of_app in Hc as [Hc|Hc].
    + apply Hstem in Hc as [Hc|[Hc|Hc]].
      * exact (Hasin c Hc Hs).
      * cbn in Hc. lia.
      * unfold is_digit in Hc. lia.
    + apply list_elem_of_In in Hc. cbn in Hc. lia.
  - intros H. apply list_elem_of_In in H. cbn in H. lia.
  - unfold stem. destruct (i =? 0)%nat.
    + exists 77. split; [|discriminate]. apply elem_of_app. right.
      apply list_elem_of_In. cbn. tauto.
    + exists 80. split; [|discriminate]. apply elem_of_app. right.
      apply list_elem_of_In. cbn. tauto.
Qed.

(** X8: the files that the marketplace download writes for one product have
    pairwise different names, whatever the number of images; each name passes
    the extension filters of the comparison when lower-casing works piece by
    piece and leaves [.jpg] as it is; and for an ASIN that holds no path
    separator the base key under which the comparison files the image is the
    name without its [.jpg], so that the keys of one product are pairwise
    different as well. *)
Theorem X8_amazon_filenames (rt : Runtime) (asin : pystr) (i j : nat) :
  (amazon_filename asin i = amazon_filename asin j -> i = j)
  /\ ((forall s t, str_lower rt (s ++ t) = str_lower rt s ++ str_lower rt t) ->
      str_lower rt (lit ".jpg") = lit ".jpg" ->
      is_amazon_image rt (amazon_filename asin i) = true
      /\ is_icepim_image rt (amazon_filename asin i) = true)
  /\ ((forall c, c ∈ asin -> c ∉ path_seps rt) ->
      (forall c, c ∈ path_seps rt -> c = 47 \/ c = 92) ->
      amazon_filename asin i
      = (splitext rt (amazon_filename asin i)).1 ++ lit ".jpg"
      /\ ((splitext rt (amazon_filename asin i)).1
          = (splitext rt (amazon_filename asin j)).1 -> i = j)).
Proof.
  assert (Hstems : forall i j,
    (if (i =? 0)%nat then asin ++ lit ".MAIN" else asin ++ lit ".PT" ++ pad2 i)
    = (if (j =? 0)%nat then asin ++ lit ".MAIN" else asin ++ lit ".PT" ++ pad2 j) -> i = j).
  { clear i j. intros i j.
    destruct (Nat.eqb_spec i 0) as [->|Hi], (Nat.eqb_spec j 0) as [->|Hj]; intros H;
      try reflexivity; apply app_inv_head in H; try discriminate H.
    apply (app_inv_head (lit ".PT")) in H. apply pad2_inj, H. }
  split; [|split].
  - rewrite !amazon_filename_jpg. intros H. apply app_inv_tail in H. apply Hstems, H.
  - intros Happ Hjpg. unfold is_amazon_image, is_icepim_image, endswith_any.
    rewrite amazon_filename_jpg, Happ, Hjpg. cbn [existsb].
    rewrite endswith_app. split; reflexivity.
  - intros Hasin Hseps. rewrite !amazon_filename_split by assumption. cbn [fst].
    split; [apply amazon_filename_jpg | apply Hstems].
Qed.

Lemma ascii_lower_app (s t : pystr) :
  str_lower ascii_runtime (s ++ t) = str_lower ascii_runtime s ++ str_lower ascii_runtime t.
Proof. apply List.map_app. Qed.

Lemma X8_amazon_filenames_witness :
  (forall c, c ∈ lit "B000000001" -> c ∉ path_seps ascii_runtime)
  /\ amazon_filename (lit "B000000001") 0 = lit "B000000001.MAIN.jpg"
  /\ amazon_filename (lit "B000000001") 7 = lit "B000000001.PT07.jpg"
  /\ is_amazon_image ascii_runtime (amazon_filename (lit "B000000001") 7) = true
  /\ (splitext ascii_runtime (amazon_filename (lit "B000000001") 7)).1 ++ lit ".jpg"
     = lit "B000000001.PT07.jpg".
Proof.
  assert (Hasin : forall c, c ∈ lit "B000000001" -> c ∉ path_seps ascii_runtime).
  { intros c Hc Hs. apply list_elem_of_singleton in Hs. subst c.
    apply list_elem_of_In in Hc. cbn in Hc. lia. }
  assert (Hseps : forall c, c ∈ path_seps ascii_runtime -> c = 47 \/ c = 92).
  { intros c Hs. apply list_elem_of_singleton in Hs. auto. }
  destruct (X8_amazon_filenames ascii_runtime (lit "B000000001") 7 0) as (_ & Hf & Hk).
  split; [exact Hasin|]. split; [reflexivity|]. split; [reflexivity|]. split.
  - apply Hf; [exact ascii_lower_app | reflexivity].
  - destruct (Hk Hasin Hseps) as [<- _]. reflexivity.
Defined.

(** ** The video verdict *)

Lemma has_unknown_ext (l l' : list pystr) :
  (forall d, d ∈ l <-> d ∈ l') -> has_unknown_in_icepim l = has_unknown_in_icepim l'.
Proof.
  intros H. apply eq_true_iff_eq. rewrite !has_unknown_spec.
  split; intros (d & Hd & Hs); exists d; (split; [apply H, Hd | exact Hs]).
Qed.

(** X9: the video verdict of a row depends on which durations each side
    shows and on nothing else: the two video counts never influence it, nor
    do the order of the durations or how often one is repeated; and more
    durations on the marketplace side never turn a Match into another
    verdict. *)
Theorem X9_video_verdict_ignores_counts (rt : Runtime) (n n' m m' : nat)
    (A A' I I' : list pystr) :
  (forall d, d ∈ I <-> d ∈ I') ->
  ((forall d, d ∈ A <-> d ∈ A') ->
   video_status (compare_videos rt n A m I) = video_status (compare_videos rt n' A' m' I'))
  /\ ((forall d, d ∈ A -> d ∈ A') ->
      video_status (compare_videos rt n A m I) = lit "Match" ->
      video_status (compare_videos rt n' A' m' I') = lit "Match").
Proof.
  intros HI. unfold compare_videos. cbv zeta.
  rewrite (has_unknown_ext I I' HI).
  destruct (has_unknown_in_icepim I'); [split; [reflexivity | discriminate]|].
  split.
  - intros HA. do 2 case_bool_decide; try reflexivity; exfalso.
    + rewrite known_subset_spec in *.
      match goal with H : ~ _ |- _ => apply H end.
      intros d Hd Hs. apply HA. apply HI in Hd. auto.
    + rewrite known_subset_spec in *.
      match goal with H : ~ _ |- _ => apply H end.
      intros d Hd Hs. apply HA. apply HI in Hd. auto.
  - intros HA. do 2 case_bool_decide; try reflexivity; try discriminate.
    intros _. exfalso. rewrite known_subset_spec in *.
    match goal with H : ~ _ |- _ => apply H end.
    intros d Hd Hs. apply HA. apply HI in Hd. auto.
Qed.

Lemma X9_video_verdict_ignores_counts_witness :
  (forall d, d ∈ [lit "1:30"; lit "1:30"; lit "0:45"] <-> d ∈ [lit "0:45"; lit "1:30"])
  /\ video_status (compare_videos ascii_runtime 1 [lit "0:45"; lit "1:30"] 3
                     [lit "1:30"; lit "1:30"; lit "0:45"])
     = video_status (compare_videos ascii_runtime 7 [lit "1:30"; lit "0:45"; lit "0:45"] 0
                       [lit "0:45"; lit "1:30"]).
Proof.
  assert (HI : forall d, d ∈ [lit "1:30"; lit "1:30"; lit "0:45"]
                         <-> d ∈ [lit "0:45"; lit "1:30"]).
  { intros d. rewrite !list_elem_of_In. cbn [In]. tauto. }
  split; [exact HI|].
  apply (X9_video_verdict_ignores_counts ascii_runtime 1 7 3 0 _ _ _ _ HI).
  intros d. rewrite !list_elem_of_In. cbn [In]. tauto.
Defined.

(** ** What one turn of the loop changes *)

Lemma set_disk_id (s : State) : set_disk (fun _ => disk s) s = s.
Proof. destruct s. reflexivity. Qed.

Lemma remove_if_exists_frame (p : option pystr) (s : State) :
  exists d, remove_if_exists p s = (set_disk (fun _ => d) s, Ok tt)
            /\ (p = None -> d = disk s).
Proof.
  unfold remove_if_exists, remove, modify, mret, M_ret.
  destruct p as [[|c p]|].
  - exists (disk s). rewrite set_disk_id. split; [reflexivity | discriminate].
  - case_bool_decide.
    + eexists. split; [reflexivity | discriminate].
    + exists (disk s). rewrite set_disk_id. split; [reflexivity | discriminate].
  - exists (disk s). rewrite set_disk_id. split; reflexivity.
Qed.

Lemma text_differs_make_row (rt : Runtime) (asin : pystr) (amazon_data : AmazonData)
    (icepim_data : IcepimData) (images : bool * pystr) :
  text_differs (make_row rt asin amazon_data icepim_data images)
  = negb (title_match rt (a_title amazon_data) (i_title icepim_data))
    || negb (bullets_match rt (a_bullets amazon_data) (i_bullets icepim_data)).
Proof.
  unfold text_differs, make_row. cbn [r_title r_bullets].
  destruct (title_match _ _ _), (bullets_match _ _ _); reflexivity.
Qed.

Lemma row_asin_url (idx : nat) (row : gmap pystr (option pystr)) (url : pystr) :
  row_get row (lit "amazon_url") = Some url ->
  row_asin idx row = default (lit "unknown_" ++ str_of_nat idx) (search_asin url).
Proof. intros H. unfold row_asin. rewrite H. reflexivity. Qed.

Ltac only_disk :=
  first [ match goal with
          | |- exists d, ?x = set_disk _ ?x /\ _ =>
              exists (disk x); split; [symmetry; apply set_disk_id | reflexivity]
          end
        | eexists; split; [reflexivity | intros; congruence] ].

Section LoopFacts.
Variable rt : Runtime.
Variable cfg : Config.
Variable world : nat -> ItemWorld.
Opaque lit.

Lemma process_amazon_frame (row : gmap pystr (option pystr)) (idx : nat) (s s1 : State)
    (o : outcome (pystr * AmazonData * option pystr)) :
  process_amazon rt cfg world row idx s = (s1, o) ->
  exists d, s1 = set_disk (fun _ => d) s /\ (CHECK_IMAGES cfg = false -> d = disk s).
Proof.
  unfold process_amazon, download_amazon_images. intros H. unfold_monad H.
  run_cases H; simplify_eq; only_disk.
Qed.

Lemma process_icepim_frame (row : gmap pystr (option pystr)) (idx : nat) (s s1 : State)
    (o : outcome (IcepimData * option pystr * option pystr)) :
  process_icepim rt cfg world row idx s = (s1, o) ->
  (exists d, s1 = set_disk (fun _ => d) s /\ (CHECK_IMAGES cfg = false -> d = disk s))
  /\ (i_status (parse_icepim cfg (world idx)) <> lit "Approved" ->
      o = Ok (parse_icepim cfg (world idx), None, None)
      \/ exists e, o = Raise e).
Proof.
  unfold process_icepim, download_icepim_images. intros H. unfold_monad H.
  run_cases H; simplify_eq;
    (split; [try only_disk|]);
    try (intros Hst; eauto;
    match goal with
    | E : _ && bool_decide _ = true |- _ =>
        apply andb_true_iff in E as [_ E]; apply bool_decide_eq_true_1 in E;
        destruct (Hst E)
    end);
    match goal with
    | E : CHECK_IMAGES cfg && _ = true |- _ =>
        apply andb_true_iff in E as [E _]; eexists; split; [reflexivity|];
        intros; congruence
    end.
Qed.

Lemma fetch_both_frame (row : gmap pystr (option pystr)) (idx : nat) (s s1 : State)
    (o : outcome ((pystr * AmazonData * option pystr)
                  * (IcepimData * option pystr * option pystr))) :
  fetch_both rt cfg world row idx s = (s1, o) ->
  (exists d, s1 = set_disk (fun _ => d) s /\ (CHECK_IMAGES cfg = false -> d = disk s))
  /\ (i_status (parse_icepim cfg (world idx)) <> lit "Approved" ->
      match o with
      | Ok (_, (_, icepim_folder, zip_path)) => icepim_folder = None /\ zip_path = None
      | Raise _ => True
      end).
Proof.
  unfold fetch_both. intros H.
  destruct (process_amazon rt cfg world row idx s) as [sa oa] eqn:Ha.
  destruct (process_icepim rt cfg world row idx sa) as [si oi] eqn:Hi.
  apply process_amazon_frame in Ha as (d & -> & Hd).
  apply process_icepim_frame in Hi as [(d' & -> & Hd') Hi].
  split.
  - exists d'. split.
    + destruct oa, oi; simplify_eq; reflexivity.
    + intros Hc. rewrite (Hd' Hc). cbn [disk set_disk]. apply Hd, Hc.
  - intros Hst. destruct (Hi Hst) as [-> | [e ->]]; destruct oa; simplify_eq; auto.
Qed.

Lemma check_images_effect (w : ItemWorld) (asin : pystr)
    (amazon_folder icepim_folder zip_path : option pystr) (s s1 : State)
    (o : outcome (bool * pystr)) :
  check_images rt cfg w asin amazon_folder icepim_folder zip_path s = (s1, o) ->
  match o with
  | Raise _ => s1 = s
  | Ok images =>
      s1 = (if CHECK_IMAGES cfg && truthy zip_path && negb images.1
            then add_gallery (path_join rt (lit "galleries for upload") (asin ++ lit ".zip")) s
            else s)
      /\ (CHECK_IMAGES cfg = false -> images = (true, lit "Image check disabled"))
      /\ (CHECK_IMAGES cfg = true ->
          exists folder r,
            amazon_folder = Some folder
            /\ compare_images_by_name_strict rt (fun p => bool_decide (p ∈ disk s))
                 (w_listdir w) (w_dhash w) folder icepim_folder = Ok r
            /\ images = (images_match r, detailed_summary r))
  end.
Proof.
  unfold check_images. intros H. unfold_monad H.
  run_cases H; simplify_eq; try reflexivity; cbn [fst snd andb].
  all: try match goal with
       | E : truthy _ && negb _ = _ |- _ => rewrite E
       end.
  all: try (split; [reflexivity|]; split; [discriminate|]; intros _; eauto).
  split; [reflexivity|]. split; [reflexivity | discriminate].
Qed.

(** What one turn of the loop does to the report, the table, the export
    requests, the progress value and the saved galleries. *)
Lemma process_row_effect (idx : nat) (row : gmap pystr (option pystr)) (s s' : State)
    (o : outcome unit) :
  process_row rt cfg world idx row s = (s', o) ->
  (CHECK_IMAGES cfg = false -> disk s' = disk s)
  /\ match o with
     | Raise _ =>
         report s' = report s /\ table s' = table s /\ exports s' = exports s
         /\ progress s' = progress s
         /\ galleries_for_upload s' = galleries_for_upload s
     | Ok _ =>
         exists images zip_path,
           let r := make_row rt (row_asin idx row) (parse_amazon cfg (world idx))
                      (parse_icepim cfg (world idx)) images in
           report s' = report s ++ [r] /\ table s' = table s ++ [r]
           /\ exports s'
              = exports s ++ (if EXPORT_ENABLED cfg && text_differs r then [idx] else [])
           /\ progress s' = idx
           /\ galleries_for_upload s'
              = galleries_for_upload s
                ++ (if CHECK_IMAGES cfg && truthy zip_path && negb images.1
                    then [path_join rt (lit "galleries for upload")
                            (row_asin idx row ++ lit ".zip")]
                    else [])
           /\ (CHECK_IMAGES cfg = false -> images = (true, lit "Image check disabled"))
           /\ (i_status (parse_icepim cfg (world idx)) <> lit "Approved" -> zip_path = None)
           /\ (CHECK_IMAGES cfg = true ->
               i_status (parse_icepim cfg (world idx)) <> lit "Approved" ->
               images = (false, lit "PIM folder missing"))
     end.
Proof.
  unfold process_row. intros H. unfold_monad H.
  destruct (row_get row (lit "amazon_url")) as [url|] eqn:Hurl; cbn [re_search_asin] in H;
    cbv beta iota zeta in H.
  2:{ injection H as <- <-. auto 10. }
  rewrite <- (row_asin_url idx row url Hurl) in H.
  destruct (fetch_both rt cfg world row idx s) as [s1 fetched] eqn:Hf.
  pose proof (fetch_both_spec _ _ _ _ _ _ _ _ Hf) as [_ Hspec].
  pose proof (fetch_both_frame _ _ _ _ _ Hf) as [(d1 & -> & Hd1) Hna].
  destruct fetched as [[[[a0 ad] af] [[idt ifo] zp]]|e]; cbv beta iota zeta in H.
  2:{ injection H as <- <-. cbn [disk report table exports progress galleries_for_upload
                                   set_disk]. auto 10. }
  destruct Hspec as (-> & -> & _ & Hoff & _).
  destruct (check_images _ _ _ _ _ _ _ _) as [s2 [images|e]] eqn:Hc;
    apply check_images_effect in Hc; cbv beta iota zeta in H.
  2:{ injection H as <- <-. subst s2.
      cbn [disk report table exports progress galleries_for_upload set_disk]. auto 10. }
  destruct Hc as (-> & Himg_off & Himg_on).
  rewrite <- text_differs_make_row
    with (asin := row_asin idx row) (images := images) in H.
  destruct (EXPORT_ENABLED cfg && text_differs _) eqn:Hexp; cbv beta iota zeta in H.
  all: repeat match type of H with
       | context [remove_if_exists ?p ?x] =>
           let d := fresh "d" in let E := fresh "E" in let N := fresh "N" in
           destruct (remove_if_exists_frame p x) as (d & E & N);
           rewrite E in H; clear E; cbv beta iota zeta in H
       end.
  all: injection H as <- <-.
  all: split;
    [intros Hcoff; destruct (Hoff Hcoff) as (-> & -> & ->);
     rewrite N1, N0, N by reflexivity; rewrite Hcoff;
     cbn [andb disk set_disk add_row add_export set_progress]; apply Hd1, Hcoff|].
  all: exists images, zp; cbv zeta.
  all: destruct (CHECK_IMAGES cfg && truthy zp && negb images.1) eqn:Hgal.
  all: cbn [disk report table exports progress galleries_for_upload
            set_disk add_row add_export add_gallery set_progress].
  all: rewrite Hexp, ?app_nil_r.
  all: repeat (split; [reflexivity|]).
  all: split; [exact Himg_off|].
  all: split; [intros Hst; apply (Hna Hst)|].
  all: intros Hon Hst; destruct (Hna Hst) as [-> ->];
       destruct (Himg_on Hon) as (folder & r & _ & Hr & ->);
       unfold compare_images_by_name_strict in Hr; cbn [truthy negb orb] in Hr;
       injection Hr as <-; reflexivity.
Qed.

Lemma nothing_done (rows : list (gmap pystr (option pystr))) (idx : nat) (s : State)
    (o : outcome unit) :
  (o = Ok tt /\ rows = []) \/ (o <> Ok tt /\ rows <> []) ->
  report s = report s ++ [] /\ table s = table s ++ []
  /\ (length (@nil ReportRow) <= length rows)%nat
  /\ (o = Ok tt <-> length (@nil ReportRow) = length rows)
  /\ (forall k r, (@nil ReportRow) !! k = Some r ->
      exists row images,
        rows !! k = Some row
        /\ r = make_row rt (row_asin (idx + k) row) (parse_amazon cfg (world (idx + k)))
                 (parse_icepim cfg (world (idx + k))) images
        /\ (CHECK_IMAGES cfg = false -> images = (true, lit "Image check disabled"))
        /\ (CHECK_IMAGES cfg = true ->
            i_status (parse_icepim cfg (world (idx + k))) <> lit "Approved" ->
            images = (false, lit "PIM folder missing")))
  /\ exports s
     = exports s
       ++ (if EXPORT_ENABLED cfg
           then omap id (imap (fun k r => if text_differs r then Some (idx + k)%nat
                                          else None) [])
           else [])
  /\ progress s = progress s
  /\ galleries_for_upload s = galleries_for_upload s ++ []
  /\ (forall g, g ∈ (@nil pystr) ->
      CHECK_IMAGES cfg = true
      /\ exists r, r ∈ (@nil ReportRow) /\ r_images r = lit "DIFFER"
                   /\ r_icepim_status r = lit "Approved"
                   /\ g = path_join rt (lit "galleries for upload")
                            (r_asin r ++ lit ".zip"))
  /\ (length (@nil pystr)
      <= length (List.filter (fun r => bool_decide (r_images r = lit "DIFFER")) []))%nat.
Proof.
  intros Ho. rewrite !app_nil_r.
  split; [reflexivity|]. split; [reflexivity|]. split; [cbn; lia|]. split.
  { destruct Ho as [[-> ->]|[Ho Hr]]; [split; intros _; reflexivity|].
    split; [intros Hx; destruct (Ho Hx)|].
    destruct rows; [congruence | intros Hx; discriminate Hx]. }
  split; [intros k r Hk; discriminate Hk|].
  split; [destruct (EXPORT_ENABLED cfg); cbn; rewrite app_nil_r; reflexivity|].
  split; [reflexivity|]. split; [reflexivity|].
  split; [intros g Hg; inversion Hg|]. cbn. lia.
Qed.

(** The rows that a run appends, the requests for export, the progress
    value and the saved galleries, for a loop that starts at [idx]. *)
Lemma main_loop_effect (rows : list (gmap pystr (option pystr))) (idx : nat)
    (s s' : State) (o : outcome unit) :
  main_loop rt cfg world idx rows s = (s', o) ->
  (CHECK_IMAGES cfg = false ->
   disk s' = disk s /\ galleries_for_upload s' = galleries_for_upload s)
  /\ exists (done : list ReportRow) (saved : list pystr),
       report s' = report s ++ done /\ table s' = table s ++ done
       /\ (length done <= length rows)%nat
       /\ (o = Ok tt <-> length done = length rows)
       /\ (forall k r, done !! k = Some r ->
           exists row images,
             rows !! k = Some row
             /\ r = make_row rt (row_asin (idx + k) row) (parse_amazon cfg (world (idx + k)))
                      (parse_icepim cfg (world (idx + k))) images
             /\ (CHECK_IMAGES cfg = false -> images = (true, lit "Image check disabled"))
             /\ (CHECK_IMAGES cfg = true ->
                 i_status (parse_icepim cfg (world (idx + k))) <> lit "Approved" ->
                 images = (false, lit "PIM folder missing")))
       /\ exports s'
          = exports s
            ++ (if EXPORT_ENABLED cfg
                then omap id (imap (fun k r => if text_differs r then Some (idx + k)%nat
                                               else None) done)
                else [])
       /\ progress s' = match done with [] => progress s | _ => (idx + length done - 1)%nat end
       /\ galleries_for_upload s' = galleries_for_upload s ++ saved
       /\ (forall g, g ∈ saved ->
           CHECK_IMAGES cfg = true
           /\ exists r, r ∈ done /\ r_images r = lit "DIFFER"
                        /\ r_icepim_status r = lit "Approved"
                        /\ g = path_join rt (lit "galleries for upload")
                                 (r_asin r ++ lit ".zip"))
       /\ (length saved
           <= length (List.filter (fun r => bool_decide (r_images r = lit "DIFFER")) done))%nat.
Proof.
  revert idx s. induction rows as [|row rest IH]; intros idx s H.
  - cbn in H. injection H as <- <-. split; [auto|].
    exists [], []. apply nothing_done. left. split; reflexivity.
  - cbn [main_loop] in H. unfold mbind, M_bind in H.
    destruct (process_row rt cfg world idx row s) as [s1 [[]|e]] eqn:E;
      apply process_row_effect in E as [Hdisk E].
    + destruct E as (images & zp & Hrep & Htab & Hexp & Hprog & Hgal & Hoff & Hzp & Hon).
      cbv zeta in *.
      apply IH in H as (Hd' & done & saved & Hrep' & Htab' & Hlen & Hok & Hrows & Hexp'
                        & Hprog' & Hgal' & Hsaved & Hcount).
      split.
      { intros Hc. destruct (Hd' Hc) as [-> ->]. rewrite Hgal, Hc. cbn [andb].
        rewrite app_nil_r. auto. }
      set (r := make_row rt (row_asin idx row) (parse_amazon cfg (world idx))
                  (parse_icepim cfg (world idx)) images) in *.
      exists (r :: done),
        ((if CHECK_IMAGES cfg && truthy zp && negb images.1
          then [path_join rt (lit "galleries for upload") (row_asin idx row ++ lit ".zip")]
          else []) ++ saved).
      split; [rewrite Hrep', Hrep, <- app_assoc; reflexivity|].
      split; [rewrite Htab', Htab, <- app_assoc; reflexivity|].
      split; [cbn [length]; lia|].
      split; [rewrite Hok; cbn [length]; lia|].
      split.
      { intros [|k] r' Hk.
        - injection Hk as <-. exists row, images. rewrite Nat.add_0_r. auto.
        - cbn in Hk. destruct (Hrows k r' Hk) as (row' & images' & Hr & Heq & Hi).
          exists row', images'. replace (idx + S k)%nat with (S idx + k)%nat by lia. auto. }
      split.
      { rewrite Hexp', Hexp, <- app_assoc. f_equal.
        destruct (EXPORT_ENABLED cfg); cbn [andb]; [|reflexivity].
        rewrite imap_cons. cbn [omap]. rewrite Nat.add_0_r.
        assert (Hext : imap ((fun k r0 => if text_differs r0 then Some (idx + k)%nat else None)
                               ∘ S) done
                       = imap (fun k r0 => if text_differs r0 then Some (S idx + k)%nat
                                           else None) done).
        { apply imap_ext. intros k r0 _. cbn. replace (idx + S k)%nat with (S (idx + k)) by lia.
          reflexivity. }
        rewrite Hext. destruct (text_differs r); reflexivity. }
      split.
      { rewrite Hprog'. destruct done as [|r0 done]; cbn [length]; [lia | lia]. }
      split; [rewrite Hgal', Hgal, <- app_assoc; reflexivity|].
      split.
      { intros g Hg. apply elem_of_app in Hg as [Hg|Hg].
        - destruct (CHECK_IMAGES cfg) eqn:Hc; [|inversion Hg].
          destruct (truthy zp) eqn:Hz; [|inversion Hg].
          destruct images as [[] det]; cbn in Hg; [inversion Hg|].
          apply list_elem_of_singleton in Hg. split; [reflexivity|].
          exists r. split; [left|]. split; [reflexivity|]. split; [|exact Hg].
          unfold r. cbn [r_icepim_status make_row].
          destruct (decide (i_status (parse_icepim cfg (world idx)) = lit "Approved"))
            as [Ha|Hna]; [exact Ha|].
          rewrite (Hzp Hna) in Hz. discriminate Hz.
        - destruct (Hsaved g Hg) as (Hc & r0 & Hr0 & Hrest).
          split; [exact Hc|]. exists r0. split; [right; exact Hr0 | exact Hrest]. }
      rewrite length_app. cbn [List.filter].
      assert (Hone : (length (if CHECK_IMAGES cfg && truthy zp && negb images.1
                              then [path_join rt (lit "galleries for upload")
                                      (row_asin idx row ++ lit ".zip")]
                              else [])
                      <= length (if bool_decide (r_images r = lit "DIFFER") then [r] else []))%nat).
      { destruct (CHECK_IMAGES cfg && truthy zp && negb images.1) eqn:Hg; [|cbn; lia].
        apply andb_true_iff in Hg as [_ Hg]. apply negb_true_iff in Hg.
        unfold r. cbn [r_images make_row]. rewrite Hg.
        rewrite bool_decide_eq_true_2 by reflexivity. cbn. lia. }
      destruct (bool_decide (r_images r = lit "DIFFER")); cbn [length] in *; lia.
    + injection H as <- <-. destruct E as (Hrep & Htab & Hexp & Hprog & Hgal).
      split; [auto|].
      exists [], []. rewrite <- Hrep, <- Htab, <- Hexp, <- Hprog, <- Hgal.
      apply nothing_done. right. split; discriminate.
Qed.
Transparent lit.
End LoopFacts.

(** ** The run as a whole *)


(** X11: an export to the marketplace is requested for exactly the lines
    whose row in the report shows DIFFER for the title or for the bullets,
    once each and in the order of the work list, when the export is switched
    on; when it is switched off, no export is ever requested. *)
Theorem X11_exports_follow_text_verdicts (rt : Runtime) (cfg : Config)
    (world : nat -> ItemWorld) (rows : list (gmap pystr (option pystr))) :
  let s' := (run rt cfg world rows).1 in
  exports s'
  = (if EXPORT_ENABLED cfg
     then omap id (imap (fun k r => if text_differs r then Some (S k) else None) (report s'))
     else [])
  /\ NoDup (exports s')
  /\ (forall n, n ∈ exports s' ->
      exists r, report s' !! (n - 1)%nat = Some r /\ (1 <= n)%nat
                /\ (r_title r = lit "DIFFER" \/ r_bullets r = lit "DIFFER")).
Proof.
  cbv zeta. unfold run.
  destruct (main_loop rt cfg world 1 rows initial_state) as [s' o] eqn:E.
  apply main_loop_effect in E
    as (_ & done & saved & Hrep & _ & _ & _ & _ & Hexp & _).
  cbn [fst snd]. cbn in Hrep, Hexp. rewrite Hrep, Hexp. clear.
  assert (Hin : forall n,
            n ∈ omap id (imap (fun k r => if text_differs r then Some (S k) else None) done)
            <-> exists r, done !! (n - 1)%nat = Some r /\ (1 <= n)%nat
                          /\ text_differs r = true).
  { intros n. rewrite list_elem_of_omap. split.
    - intros (x & Hx & Hn). cbn in Hn. subst x.
      apply elem_of_lookup_imap in Hx as (k & r & Heq & Hk).
      destruct (text_differs r) eqn:Hd; [|discriminate Heq].
      injection Heq as ->. exists r. cbn. rewrite Nat.sub_0_r.
      split; [exact Hk|]. split; [lia | exact Hd].
    - intros (r & Hr & Hn & Hd). exists (Some n). split; [|reflexivity].
      apply elem_of_lookup_imap. exists (n - 1)%nat, r. rewrite Hd.
      split; [f_equal; lia | exact Hr]. }
  split; [reflexivity|]. split.
  - destruct (EXPORT_ENABLED cfg); [|constructor].
    assert (Hgen : forall (l : list ReportRow) (b : nat),
              NoDup (omap id (imap (fun k r => if text_differs r then Some (b + k)%nat
                                               else None) l))
              /\ forall n, n ∈ omap id (imap (fun k r => if text_differs r
                                                         then Some (b + k)%nat else None) l)
                           -> (b <= n)%nat).
    { induction l as [|r l IH]; intros b.
      - split; [constructor | intros n Hn; inversion Hn].
      - rewrite imap_cons. cbn [omap].
        assert (Hext : imap ((fun k r0 => if text_differs r0 then Some (b + k)%nat else None)
                               ∘ S) l
                       = imap (fun k r0 => if text_differs r0 then Some (S b + k)%nat
                                           else None) l).
        { apply imap_ext. intros k r0 _. cbn.
          replace (b + S k)%nat with (S (b + k)) by lia. reflexivity. }
        rewrite Hext. destruct (IH (S b)) as [Hnd Hle].
        destruct (text_differs r); cbn [id].
        + split.
          * constructor; [|exact Hnd]. intros Hb. apply Hle in Hb. lia.
          * intros n Hn. apply elem_of_cons in Hn as [-> | Hn]; [lia|].
            apply Hle in Hn. lia.
        + split; [exact Hnd|]. intros n Hn. apply Hle in Hn. lia. }
    apply (Hgen done 1%nat).
  - intros n Hn. destruct (EXPORT_ENABLED cfg); [|inversion Hn].
    apply Hin in Hn as (r & Hr & H1 & Hd). exists r. split; [exact Hr|]. split; [exact H1|].
    unfold text_differs in Hd. apply orb_true_iff in Hd as [Hd|Hd];
      apply bool_decide_eq_true_1 in Hd; auto.
Qed.

(** X12: with the image check switched off a run touches neither the disk
    nor the folder of galleries for upload: no temporary folder and no
    archive is created, whether the run ends or is cut short by an
    exception. *)
Theorem X12_no_image_check_no_files (rt : Runtime) (cfg : Config)
    (world : nat -> ItemWorld) (rows : list (gmap pystr (option pystr))) (idx : nat)
    (s : State) :
  CHECK_IMAGES cfg = false ->
  disk (main_loop rt cfg world idx rows s).1 = disk s
  /\ galleries_for_upload (main_loop rt cfg world idx rows s).1 = galleries_for_upload s.
Proof.
  intros Hc. destruct (main_loop rt cfg world idx rows s) as [s' o] eqn:E.
  apply main_loop_effect in E as [H _]. exact (H Hc).
Qed.

Lemma X12_no_image_check_no_files_witness :
  CHECK_IMAGES text_and_export = false
  /\ disk (run ascii_runtime text_and_export (first_then_good pim_unreachable_item)
             [demo_row; demo_row]).1 = ∅
  /\ galleries_for_upload
       (run ascii_runtime text_and_export (first_then_good pim_unreachable_item)
          [demo_row; demo_row]).1 = []
  /\ exports (run ascii_runtime text_and_export (first_then_good pim_unreachable_item)
                [demo_row; demo_row]).1 = [1%nat].
Proof.
  split; [reflexivity|].
  destruct (X12_no_image_check_no_files ascii_runtime text_and_export
              (first_then_good pim_unreachable_item) [demo_row; demo_row] 1 initial_state
              eq_refl) as [Hd Hg].
  split; [exact Hd|]. split; [exact Hg|]. vm_compute. reflexivity.
Defined.

(** X13: a gallery archive is saved for upload only for a line whose row
    in the report shows DIFFER for the images and the status Approved, under
    the name of the identifier of that row; so there are never more saved
    galleries than rows with an image mismatch. *)
Theorem X13_saved_galleries (rt : Runtime) (cfg : Config) (world : nat -> ItemWorld)
    (rows : list (gmap pystr (option pystr))) :
  let s' := (run rt cfg world rows).1 in
  (length (galleries_for_upload s')
   <= length (List.filter (fun r => bool_decide (r_images r = lit "DIFFER")) (report s')))%nat
  /\ (forall g, g ∈ galleries_for_upload s' ->
      CHECK_IMAGES cfg = true
      /\ exists r, r ∈ report s' /\ r_images r = lit "DIFFER"
                   /\ r_icepim_status r = lit "Approved"
                   /\ g = path_join rt (lit "galleries for upload") (r_asin r ++ lit ".zip")).
Proof.
  cbv zeta. unfold run.
  destruct (main_loop rt cfg world 1 rows initial_state) as [s' o] eqn:E.
  apply main_loop_effect in E
    as (_ & done & saved & Hrep & _ & _ & _ & _ & _ & _ & Hgal & Hsaved & Hcount).
  cbn [fst snd]. cbn in Hrep, Hgal. rewrite Hrep, Hgal. split; assumption.
Qed.

Lemma X13_saved_galleries_witness :
  galleries_for_upload (run ascii_runtime all_checks (first_then_good other_image_item)
                          [demo_row; demo_row]).1
  = [lit "galleries for upload/B000000001.zip"]
  /\ List.map r_images (report (run ascii_runtime all_checks
                                  (first_then_good other_image_item)
                                  [demo_row; demo_row]).1)
     = [lit "DIFFER"; lit "MATCH"]
  /\ (length (galleries_for_upload
                (run ascii_runtime all_checks (first_then_good other_image_item)
                   [demo_row; demo_row]).1)
      <= length (List.filter (fun r => bool_decide (r_images r = lit "DIFFER"))
                   (report (run ascii_runtime all_checks (first_then_good other_image_item)
                              [demo_row; demo_row]).1)))%nat.
Proof.
  split; [vm_compute; reflexivity|]. split; [vm_compute; reflexivity|].
  apply (X13_saved_galleries ascii_runtime all_checks (first_then_good other_image_item)
           [demo_row; demo_row]).
Defined.

(** X14: with the image check switched on, every row of the report whose
    PIM status is not Approved shows DIFFER for the images, with the detail
    text "PIM folder missing": the gallery of such a product is never
    fetched, and the images of the marketplace are compared with nothing. *)
Theorem X14_not_approved_images_differ (rt : Runtime) (cfg : Config)
    (world : nat -> ItemWorld) (rows : list (gmap pystr (option pystr))) :
  CHECK_IMAGES cfg = true ->
  Forall (fun r => r_icepim_status r <> lit "Approved" ->
                   r_images r = lit "DIFFER"
                   /\ r_images_details r = lit "PIM folder missing")
    (report (run rt cfg world rows).1).
Proof.
  intros Hc. unfold run.
  destruct (main_loop rt cfg world 1 rows initial_state) as [s' o] eqn:E.
  apply main_loop_effect in E as (_ & done & saved & Hrep & _ & _ & _ & Hrows & _).
  cbn [fst]. cbn in Hrep. rewrite Hrep. apply Forall_lookup. intros k r Hk Hst.
  destruct (Hrows k r Hk) as (row & images & _ & -> & _ & Hon).
  cbn [r_icepim_status make_row] in Hst. rewrite (Hon Hc Hst). split; reflexivity.
Qed.

Lemma X14_not_approved_images_differ_witness :
  CHECK_IMAGES all_checks = true
  /\ List.map (fun r => (r_icepim_status r, r_images r, r_images_details r))
       (report (run ascii_runtime all_checks (first_then_good pim_unreachable_item)
                  [demo_row; demo_row]).1)
     = [(lit "ERROR", lit "DIFFER", lit "PIM folder missing");
        (lit "Approved", lit "MATCH", lit "1 Amazon / 1 PIM, all MATCH")]
  /\ Forall (fun r => r_icepim_status r <> lit "Approved" ->
                      r_images r = lit "DIFFER"
                      /\ r_images_details r = lit "PIM folder missing")
       (report (run ascii_runtime all_checks (first_then_good pim_unreachable_item)
                  [demo_row; demo_row]).1).
Proof.
  split; [reflexivity|]. split; [vm_compute; reflexivity|].
  apply (X14_not_approved_images_differ ascii_runtime all_checks
           (first_then_good pim_unreachable_item) [demo_row; demo_row]).
  reflexivity.
Defined.

(** ** Degraded snapshots *)

Lemma title_match_refl (rt : Runtime) (t : pystr) : title_match rt t t = true.
Proof. unfold title_match. apply bool_decide_eq_true_2. reflexivity. Qed.

Lemma bullets_match_refl (rt : Runtime) (l : list pystr) : bullets_match rt l l = true.
Proof.
  apply bullets_match_spec. split; [reflexivity|].
  intros k a b Ha Hb. congruence.
Qed.

(** X15: when the reading of the marketplace page and the reading of the
    PIM page both fail, the row of the product shows MATCH for the title
    and for the bullets and Match for the videos, with the status ERROR and
    NO for the manual and the brand store: the two placeholders are compared
    with each other, and no export is requested for the line. *)
Theorem X15_both_sources_failed (rt : Runtime) (cfg : Config) (w : ItemWorld)
    (asin : pystr) (images : bool * pystr) (e e' : exn) :
  w_amazon_page w = Raise e -> w_icepim_page w = Raise e' ->
  let r := make_row rt asin (parse_amazon cfg w) (parse_icepim cfg w) images in
  r_title r = lit "MATCH" /\ r_bullets r = lit "MATCH"
  /\ r_icepim_status r = lit "ERROR"
  /\ r_user_manual r = lit "NO" /\ r_brand_store r = lit "NO"
  /\ r_video r = lit "Match"
  /\ text_differs r = false.
Proof.
  intros Ha Hi. cbv zeta.
  assert (Hrow : make_row rt asin (parse_amazon cfg w) (parse_icepim cfg w) images
                 = make_row rt asin amazon_degraded icepim_error images).
  { unfold parse_amazon, parse_icepim. rewrite Ha, Hi. reflexivity. }
  rewrite Hrow, text_differs_make_row. unfold make_row, amazon_degraded, icepim_error.
  cbn [r_title r_bullets r_icepim_status r_user_manual r_brand_store r_video
       a_title a_bullets a_has_manual a_store_correct a_videos_count a_videos_durations
       i_title i_bullets i_status i_videos].
  rewrite title_match_refl, bullets_match_refl.
  repeat split; reflexivity.
Qed.

Lemma X15_both_sources_failed_witness :
  w_amazon_page dead_item = Raise WebDriverException
  /\ w_icepim_page dead_item = Raise WebDriverException
  /\ List.map (fun r => (r_asin r, r_title r, r_bullets r, r_icepim_status r, r_video r))
       (report (run ascii_runtime text_and_export (fun _ => dead_item) [demo_row]).1)
     = [(lit "B000000001", lit "MATCH", lit "MATCH", lit "ERROR", lit "Match")]
  /\ text_differs (make_row ascii_runtime (lit "B000000001")
                     (parse_amazon text_and_export dead_item)
                     (parse_icepim text_and_export dead_item)
                     (true, lit "Image check disabled")) = false.
Proof.
  split; [reflexivity|]. split; [reflexivity|]. split; [vm_compute; reflexivity|].
  apply (X15_both_sources_failed ascii_runtime text_and_export dead_item (lit "B000000001")
           (true, lit "Image check disabled") WebDriverException WebDriverException);
    reflexivity.
Defined.

(** ** Galleries whose files share no name *)

Lemma base_dict_key (rt : Runtime) (files : list pystr) (base f : pystr) :
  base_dict rt files !! base = Some f -> (splitext rt f).1 = base /\ f ∈ files.
Proof.
  unfold base_dict.
  enough (H : forall d : gmap pystr pystr,
    foldl (fun d f => <[(splitext rt f).1 := f]> d) d files !! base = Some f ->
    d !! base = Some f \/ ((splitext rt f).1 = base /\ f ∈ files)).
  { intros Hl. destruct (H ∅ Hl) as [He|Hin]; [|exact Hin].
    rewrite lookup_empty in He. discriminate He. }
  induction files as [|g files IH]; intros d Hl; cbn [foldl] in *; [left; exact Hl|].
  destruct (IH _ Hl) as [Hd|[Hk Hin]]; [|right; split; [exact Hk | right; exact Hin]].
  destruct (decide ((splitext rt g).1 = base)) as [Heq|Hne].
  - rewrite <- Heq, lookup_insert_eq in Hd. injection Hd as <-. right. split; [exact Heq | left].
  - rewrite lookup_insert_ne in Hd by exact Hne. left. exact Hd.
Qed.

(** X16: when no image of the marketplace folder has the same name without
    extension as an image of the PIM folder, no pair is formed and no hash
    is compared: the galleries are a match exactly when the two folders hold
    the same number of image files, and the detail text reads "all MATCH"
    then and "Different q-ty, 0 Mismatch" otherwise. *)
Theorem X16_gallery_without_common_names (rt : Runtime) (path_exists : pystr -> bool)
    (listdir : pystr -> outcome (list pystr)) (get_dhash : pystr -> option pystr)
    (amazon_folder icepim_folder : pystr) (a_listing i_listing : list pystr) :
  icepim_folder <> [] -> path_exists icepim_folder = true ->
  listdir amazon_folder = Ok a_listing -> listdir icepim_folder = Ok i_listing ->
  let a_files := List.filter (is_amazon_image rt) a_listing in
  let i_files := List.filter (is_icepim_image rt) i_listing in
  let counts := str_of_nat (length a_files) ++ lit " Amazon / "
                  ++ str_of_nat (length i_files) ++ lit " PIM, " in
  (forall a i, a ∈ a_files -> i ∈ i_files -> (splitext rt a).1 <> (splitext rt i).1) ->
  compare_images_by_name_strict rt path_exists listdir get_dhash amazon_folder
    (Some icepim_folder)
  = Ok {| summary := str_of_nat (length a_files) ++ lit "/" ++ str_of_nat (length i_files);
          images_match := (length a_files =? length i_files)%nat;
          detailed_summary :=
            if (length a_files =? length i_files)%nat then counts ++ lit "all MATCH"
            else counts ++ lit "Different q-ty, 0 Mismatch" |}.
Proof.
  intros Hne Hex Hla Hli. cbv zeta. intros Hnames.
  unfold compare_images_by_name_strict.
  destruct icepim_folder as [|c rest]; [congruence|].
  cbn [truthy default from_option id]. rewrite Hex, Hla, Hli. cbn [negb orb].
  set (a_dict := base_dict rt (List.filter (is_amazon_image rt) a_listing)).
  set (i_dict := base_dict rt (List.filter (is_icepim_image rt) i_listing)).
  assert (Hno : forall base, forms_pair a_dict i_dict base = false).
  { intros base. unfold forms_pair.
    destruct (a_dict !! base) as [a|] eqn:Ea; [|reflexivity].
    destruct (i_dict !! base) as [i|] eqn:Ei; [|apply andb_false_r].
    apply base_dict_key in Ea as [Ka Ha]. apply base_dict_key in Ei as [Ki Hi].
    destruct (Hnames a i Ha Hi). congruence. }
  assert (Hnil : forall l : list pystr, List.filter (fun _ => false) l = []).
  { induction l; [reflexivity | assumption]. }
  assert (Hcnt : compare_loop rt get_dhash amazon_folder (c :: rest) a_dict i_dict
                   (sorted (elements (dom a_dict ∪ dom i_dict))) = (0, 0)%nat).
  { rewrite compare_loop_counts. f_equal.
    - rewrite (List.filter_ext _ (fun _ => false)); [rewrite Hnil; reflexivity|].
      intros base. rewrite Hno. reflexivity.
    - rewrite (List.filter_ext _ (fun _ => false)); [rewrite Hnil; reflexivity|].
      exact Hno. }
  rewrite Hcnt. cbn [Nat.eqb Nat.sub]. rewrite andb_true_r.
  destruct (length _ =? length _)%nat; reflexivity.
Qed.

Lemma X16_gallery_without_common_names_witness :
  let listdir := fun p : pystr =>
    if bool_decide (p = lit "/a")
    then Ok [lit "B000000001.MAIN.jpg"; lit "B000000001.PT01.jpg"]
    else Ok [lit "front.png"; lit "back.png"; lit "readme.txt"] in
  (forall a i,
     a ∈ List.filter (is_amazon_image ascii_runtime)
           [lit "B000000001.MAIN.jpg"; lit "B000000001.PT01.jpg"] ->
     i ∈ List.filter (is_icepim_image ascii_runtime)
           [lit "front.png"; lit "back.png"; lit "readme.txt"] ->
     (splitext ascii_runtime a).1 <> (splitext ascii_runtime i).1)
  /\ compare_images_by_name_strict ascii_runtime (fun _ => true) listdir (fun _ => None)
       (lit "/a") (Some (lit "/b"))
     = Ok {| summary := lit "2/2"; images_match := true;
             detailed_summary := lit "2 Amazon / 2 PIM, all MATCH" |}.
Proof.
  cbv zeta.
  assert (Hnames : forall a i,
     a ∈ List.filter (is_amazon_image ascii_runtime)
           [lit "B000000001.MAIN.jpg"; lit "B000000001.PT01.jpg"] ->
     i ∈ List.filter (is_icepim_image ascii_runtime)
           [lit "front.png"; lit "back.png"; lit "readme.txt"] ->
     (splitext ascii_runtime a).1 <> (splitext ascii_runtime i).1).
  { intros a i Ha Hi. apply list_elem_of_In in Ha, Hi.
    vm_compute in Ha, Hi.
    destruct Ha as [<-|[<-|[]]]; destruct Hi as [<-|[<-|[]]]; vm_compute; discriminate. }
  split; [exact Hnames|].
  rewrite (X16_gallery_without_common_names ascii_runtime (fun _ => true) _ (fun _ => None)
             (lit "/a") (lit "/b")
             [lit "B000000001.MAIN.jpg"; lit "B000000001.PT01.jpg"]
             [lit "front.png"; lit "back.png"; lit "readme.txt"]).
  - vm_compute. reflexivity.
  - discriminate.
  - reflexivity.
  - reflexivity.
  - reflexivity.
  - exact Hnames.
Defined.

(** ** Video parity from the probes to the verdict *)





(** ** A marketplace page that did not load in full *)



